(** * rtgg-bot: the racetime.gg client and its race-room socket sessions

    A shallow embedding of [src/index.ts] (class [RacetimeClient]),
    [src/websocket/client.ts] (class [WebSocketClient]) and the parts of
    [types.ts] they use, followed by the properties of the connection and
    session layer.

    Conventions of the embedding.
    - Instants are milliseconds since the epoch, in [Z] ([Date.getTime]);
      [expires_in] is a whole number of seconds.
    - The methods run in a state-and-exception monad over a [World]: the
      client object, the heap of [WebSocketClient] objects, the clock, what
      the environment will answer (the replies of [fetch], the events of the
      sockets) and the trace of observable effects.
    - A method is a computation that runs from its call to its end, in
      program order.  An [await] of [fetch] takes the next reply of the
      environment; an [await] of a join lets the sockets report their
      events until the promise is settled.  The clock advances only while
      the method waits.  Calls that overlap are the relation [overlapping]:
      there the pieces of a method between two awaits are steps of their
      own.
    - JSON text is decoded by the host ([JSON.parse], [Response.json]); the
      decoders are the members of the class [Host].  The body of a snapshot
      is kept as the JSON value that [Response.json()] gives, since the
      source casts it to [RaceDetails] without a check and goes on with
      whatever it is; the credential and the listing of a category are
      read at their interfaces. *)

From Stdlib Require Import ZArith Lia.
From stdpp Require Import base option list strings pretty gmap.

Open Scope string_scope.
Open Scope Z_scope.
Open Scope list_scope.

Set Warnings "-register-all".

(** ** types.ts *)

(** A decoded JSON document, as [JSON.parse] returns it.  An object is the
    list of its members; a member is read by its first binding. *)
Inductive json : Type :=
| JNull
| JBool (b : bool)
| JNum (n : Z)
| JStr (s : string)
| JArr (items : list json)
| JObj (members : list (string * json)).

Definition RawData := string.

(** The exceptions that the modelled code throws or passes on. *)
Inductive JsError : Type :=
| TypeError (message : string)
| SyntaxError (message : string)
| Error (message : string)
| UnknownMessageType (type : option json)
    (* new Error(`Unknown message type: ${message.type}`) *)
| HostError (message : string).
    (* an error object handed over by fetch or by the socket *)

Inductive RaceStatusText := OPEN | INVITATIONAL | PENDING | IN_PROGRESS | FINISHED | CANCELLED.

Definition RaceStatusText_value (s : RaceStatusText) : string :=
  match s with
  | OPEN => "open"
  | INVITATIONAL => "invitational"
  | PENDING => "pending"
  | IN_PROGRESS => "in_progress"
  | FINISHED => "finished"
  | CANCELLED => "cancelled"
  end.

Inductive RTPacketTypes :=
| GET_RACE | GET_HISTORY | MESSAGE | PIN_MESSAGE | UNPIN_MESSAGE | PING
| SET_INFO | MAKE_OPEN | MAKE_INVITATIONAL | BEGIN | CANCEL | INVITE
| ACCEPT_REQUEST | FORCE_UNREADY | REMOVE_ENTRANT | ADD_MONITOR
| REMOVE_MONITOR | OVERRIDE_STREAM.

Definition RTPacketTypes_value (p : RTPacketTypes) : string :=
  match p with
  | GET_RACE => "getrace"
  | GET_HISTORY => "gethistory"
  | MESSAGE => "message"
  | PIN_MESSAGE => "pin_message"
  | UNPIN_MESSAGE => "unpin_message"
  | PING => "ping"
  | SET_INFO => "setinfo"
  | MAKE_OPEN => "make_open"
  | MAKE_INVITATIONAL => "make_invitational"
  | BEGIN => "begin"
  | CANCEL => "cancel"
  | INVITE => "invite"
  | ACCEPT_REQUEST => "accept_request"
  | FORCE_UNREADY => "force_unready"
  | REMOVE_ENTRANT => "remove_entrant"
  | ADD_MONITOR => "add_monitor"
  | REMOVE_MONITOR => "remove_monitor"
  | OVERRIDE_STREAM => "override_stream"
  end.

(** The members of the string enum [RTMessageTypes] and their values.  Two
    members, [CHAT_PIN] and [CHAT_UNPIN], have the same value. *)
Inductive RTMessageTypes :=
| CHAT_HISTORY | CHAT_MESSAGE | CHAT_DM | CHAT_PIN | CHAT_UNPIN | CHAT_DELETE
| CHAT_PURGE | ERROR | PONG | RACE_DATA | RACE_RENDERS.

Definition RTMessageTypes_value (t : RTMessageTypes) : string :=
  match t with
  | CHAT_HISTORY => "chat.history"
  | CHAT_MESSAGE => "chat.message"
  | CHAT_DM => "chat.dm"
  | CHAT_PIN => "chat.pin"
  | CHAT_UNPIN => "chat.pin"
  | CHAT_DELETE => "chat.delete"
  | CHAT_PURGE => "chat.purge"
  | ERROR => "error"
  | PONG => "pong"
  | RACE_DATA => "race.data"
  | RACE_RENDERS => "race.renders"
  end.

Record RTAction := { action : RTPacketTypes; data : option json }.

Record RaceStatus := {
  value : RaceStatusText;
  verbose_value : string;
  help_text : string }.

(** [RaceDetails extends CachableData]: the members the client reads, and
    the identifying ones; the other members of the interface are carried
    along by the decoder and never inspected. *)
Record RaceDetails := {
  last_updated : Z;
  name : string;
  status : RaceStatus;
  url : string;
  data_url : string;
  websocket_url : string;
  websocket_bot_url : string;
  websocket_oauth_url : string;
  info : string }.

Definition set_last_updated (t : Z) (d : RaceDetails) : RaceDetails :=
  {| last_updated := t; name := name d; status := status d; url := url d;
     data_url := data_url d; websocket_url := websocket_url d;
     websocket_bot_url := websocket_bot_url d;
     websocket_oauth_url := websocket_oauth_url d; info := info d |}.

(** ** index.ts: the credential *)

Record Credentials := {
  access_token : string;
  expires_in : Z;
  token_type : string;
  scope : string }.

(** The events of the client's emitter ([RacetimeEvents]). *)
Inductive RacetimeEvents :=
| auth_success
| auth_error (err : string).

(** ** websocket/client.ts: the events of a session ([WebSocketEvents]) *)

Inductive WebSocketEvents :=
| ev_ready (url : string)
| ev_close (code : Z) (reason : string)
| ev_socket_error (error : JsError)
| ev_raw_message (data : RawData)
| ev_chat_history (history : json)
| ev_chat_message (message : json)
| ev_chat_dm
| ev_chat_pin (message : json)
| ev_chat_unpin (message : json)
| ev_chat_delete (message : json)
| ev_chat_purge (user : json)
| ev_rt_error (error : json)
| ev_pong
| ev_race_data (data : json).

(** The typed events are the ones [handleMessage] dispatches to; the other
    four report the life of the socket. *)
Definition typed_event (ev : WebSocketEvents) : bool :=
  match ev with
  | ev_ready _ | ev_close _ _ | ev_socket_error _ | ev_raw_message _ => false
  | _ => true
  end.

(** ** The host: fetch, sockets, console *)

Record RequestInit := {
  method : option string;
  headers : list (string * string);
  body : option (list (string * string)) }.

Record Response := {
  resp_status : Z;
  resp_statusText : string;
  resp_headers : list (string * string);
  resp_body : string }.

(** [Response.ok]: the status is in the range 200..299. *)
Definition ok (r : Response) : bool :=
  (200 <=? resp_status r) && (resp_status r <=? 299).

Inductive FetchResult :=
| Rejects (e : JsError)
| Responds (r : Response).

(** What a socket of the [ws] package reports to its listeners. *)
Inductive SocketEvent :=
| sock_open
| sock_message (data : RawData)
| sock_close (code : Z) (reason : string)
| sock_error (err : JsError).

Inductive ConsoleLevel := c_log | c_warn | c_error | c_trace.

Inductive LogLine :=
| log_socket_closed (code : Z) (reason : string)
| log_socket_error (err : JsError) (raceSocketUrl : string)
| log_sending (frame : string)
| log_rt_error (message : json)
| log_abnormal (code : Z) (reason : string)
| log_exception (e : JsError)
| log_text (s : string).

(** The observable effects, in the order they happen. *)
Inductive Effect :=
| Fetch (url : string) (init : RequestInit)
| ClientEmit (ev : RacetimeEvents)
| NewWebSocket (id : nat) (url : string) (authorization : string)
| SocketSend (id : nat) (frame : string)
| SessionEmit (id : nat) (ev : WebSocketEvents)
| Console (level : ConsoleLevel) (line : LogLine).

(** ** State *)

(** The promise that [joinRaceRoom] returns for a new session; the listeners
    it registers on the session settle it. *)
Inductive PromiseState :=
| Pending
| Fulfilled
| Rejected (err : JsError).

(** A [WebSocketClient] object, with the promise its [joinRaceRoom]
    listeners close over. *)
Record WebSocketClient := {
  raceSocketUrl : string;
  ready : bool;
  messageQueue : list RTAction;
  joined : PromiseState }.

Record RacetimeClient := {
  clientId : string;
  clientSecret : string;
  category : string;
  auth : option Credentials;
  authExpireTime : Z;
  sockets : gmap string nat;
  raceDetailsCache : gmap string RaceDetails }.

Record World := {
  client : RacetimeClient;
  heap : list WebSocketClient;
  now : Z;
  net : list (N * FetchResult);
  wire : list (N * nat * SocketEvent);
  trace : list Effect }.

Definition set_client (c : RacetimeClient) (w : World) : World :=
  {| client := c; heap := heap w; now := now w; net := net w;
     wire := wire w; trace := trace w |}.

Definition set_heap (h : list WebSocketClient) (w : World) : World :=
  {| client := client w; heap := h; now := now w; net := net w;
     wire := wire w; trace := trace w |}.

Definition set_net (n : list (N * FetchResult)) (w : World) : World :=
  {| client := client w; heap := heap w; now := now w; net := n;
     wire := wire w; trace := trace w |}.

Definition set_wire (l : list (N * nat * SocketEvent)) (w : World) : World :=
  {| client := client w; heap := heap w; now := now w; net := net w;
     wire := l; trace := trace w |}.

Definition advance (dt : N) (w : World) : World :=
  {| client := client w; heap := heap w; now := now w + Z.of_N dt;
     net := net w; wire := wire w; trace := trace w |}.

Definition record (es : list Effect) (w : World) : World :=
  {| client := client w; heap := heap w; now := now w; net := net w;
     wire := wire w; trace := trace w ++ es |}.

Definition set_auth (a : option Credentials) (c : RacetimeClient) : RacetimeClient :=
  {| clientId := clientId c; clientSecret := clientSecret c;
     category := category c; auth := a; authExpireTime := authExpireTime c;
     sockets := sockets c; raceDetailsCache := raceDetailsCache c |}.

Definition set_authExpireTime (t : Z) (c : RacetimeClient) : RacetimeClient :=
  {| clientId := clientId c; clientSecret := clientSecret c;
     category := category c; auth := auth c; authExpireTime := t;
     sockets := sockets c; raceDetailsCache := raceDetailsCache c |}.

Definition set_sockets (s : gmap string nat) (c : RacetimeClient) : RacetimeClient :=
  {| clientId := clientId c; clientSecret := clientSecret c;
     category := category c; auth := auth c;
     authExpireTime := authExpireTime c;
     sockets := s; raceDetailsCache := raceDetailsCache c |}.

Definition set_raceDetailsCache (m : gmap string RaceDetails) (c : RacetimeClient)
  : RacetimeClient :=
  {| clientId := clientId c; clientSecret := clientSecret c;
     category := category c; auth := auth c;
     authExpireTime := authExpireTime c;
     sockets := sockets c; raceDetailsCache := m |}.

Definition set_ready (b : bool) (s : WebSocketClient) : WebSocketClient :=
  {| raceSocketUrl := raceSocketUrl s; ready := b;
     messageQueue := messageQueue s; joined := joined s |}.

Definition set_messageQueue (q : list RTAction) (s : WebSocketClient) : WebSocketClient :=
  {| raceSocketUrl := raceSocketUrl s; ready := ready s;
     messageQueue := q; joined := joined s |}.

Definition set_joined (p : PromiseState) (s : WebSocketClient) : WebSocketClient :=
  {| raceSocketUrl := raceSocketUrl s; ready := ready s;
     messageQueue := messageQueue s; joined := p |}.

(** ** The monad of the methods *)

(** How a run ends: with a value, with an exception thrown to the caller,
    waiting for ever on the environment, or with an exception that left a
    socket listener and reached the event loop. *)
Inductive Outcome (A : Type) : Type :=
| Ret (a : A)
| Throw (e : JsError)
| Blocked
| Uncaught (e : JsError).

Arguments Ret {A} a.
Arguments Throw {A} e.
Arguments Blocked {A}.
Arguments Uncaught {A} e.

Definition M (A : Type) : Type := World -> Outcome A * World.

Definition ret {A} (a : A) : M A := fun w => (Ret a, w).

Definition throw {A} (e : JsError) : M A := fun w => (Throw e, w).

Definition bind {A B} (m : M A) (k : A -> M B) : M B := fun w =>
  match m w with
  | (Ret a, w1) => k a w1
  | (Throw e, w1) => (Throw e, w1)
  | (Blocked, w1) => (Blocked, w1)
  | (Uncaught e, w1) => (Uncaught e, w1)
  end.

(** [try { m } catch (e) { h e }] *)
Definition try_catch {A} (m : M A) (h : JsError -> M A) : M A := fun w =>
  match m w with
  | (Throw e, w1) => h e w1
  | r => r
  end.

Notation "x <- m ;; k" := (bind m (fun x => k))
  (at level 100, m at next level, right associativity).
Notation "m ;;; k" := (bind m (fun _ => k))
  (at level 100, right associativity).

Definition get : M World := fun w => (Ret w, w).

Definition modify (f : World -> World) : M unit := fun w => (Ret tt, f w).

Definition effect (e : Effect) : M unit := modify (record [e]).

(** [new Date().getTime()] *)
Definition Date_now : M Z := fun w => (Ret (now w), w).

Definition console (level : ConsoleLevel) (line : LogLine) : M unit :=
  effect (Console level line).

Fixpoint forEach {A} (l : list A) (f : A -> M unit) : M unit :=
  match l with
  | [] => ret tt
  | x :: l' => f x ;;; forEach l' f
  end.

(** ** websocket/client.ts: class WebSocketClient *)

(** [this] of a method called on the session [id].  A method called on
    [undefined] (a session that is not there) throws. *)
Definition this_ (id : nat) : M WebSocketClient := fun w =>
  match heap w !! id with
  | Some s => (Ret s, w)
  | None => (Throw (TypeError "Cannot read properties of undefined"), w)
  end.

Definition update_this (id : nat) (f : WebSocketClient -> WebSocketClient) : M unit :=
  modify (fun w => set_heap (alter f id (heap w)) w).

(** [this.socket.send(frame)] *)
Definition socket_send (id : nat) (frame : string) : M unit :=
  effect (SocketSend id frame).

(** *** index.ts, lines 60-74: the listeners of [joinRaceRoom]

    They are registered on every session right after its construction, so
    they are given here, before the emitter that calls them. *)

Definition settle (p : PromiseState) (s : WebSocketClient) : WebSocketClient :=
  match joined s with
  | Pending => set_joined p s
  | _ => s
  end.

Definition resolve (id : nat) : M unit := update_this id (settle Fulfilled).

Definition reject (id : nat) (err : JsError) : M unit :=
  update_this id (settle (Rejected err)).

(** [socket.reconnect()].  Class [WebSocketClient] declares the members
    [socket], [client], [ready], [messageQueue], [sendMessage] and
    [handleMessage] and inherits the methods of the emitter; no member is
    named [reconnect], so the call throws. *)
Definition reconnect (id : nat) : M unit :=
  throw (TypeError "socket.reconnect is not a function").

Definition joinRaceRoom_listeners (id : nat) (ev : WebSocketEvents) : M unit :=
  match ev with
  | ev_ready _ => resolve id
  | ev_socket_error err => reject id err
  | ev_close code reason =>
      if 1000 <? code then
        console c_warn (log_abnormal code reason) ;;;
        reconnect id
      else ret tt
  | _ => ret tt
  end.

(** [this.emit(ev)]: the event is observed, then the listeners run. *)
Definition emit (id : nat) (ev : WebSocketEvents) : M unit :=
  effect (SessionEmit id ev) ;;;
  joinRaceRoom_listeners id ev.

(** [message.type] *)
Fixpoint member (k : string) (l : list (string * json)) : option json :=
  match l with
  | [] => None
  | (k', v) :: l' => if String.eqb k k' then Some v else member k l'
  end.

Definition message_type (message : json) : M (option json) :=
  match message with
  | JNull => throw (TypeError "Cannot read properties of null (reading 'type')")
  | JObj members => ret (member "type" members)
  | _ => ret None
  end.

(** [v === RTMessageTypes.t] *)
Definition strict_equals (v : option json) (t : RTMessageTypes) : bool :=
  match v with
  | Some (JStr s) => String.eqb s (RTMessageTypes_value t)
  | _ => false
  end.

(** [switch (v) { case t: body; break; ... default: d }]: the first case
    whose label equals [v] runs. *)
Fixpoint switch {A} (v : option json) (cases : list (RTMessageTypes * M A))
    (default : M A) : M A :=
  match cases with
  | [] => default
  | (t, body) :: rest =>
      if strict_equals v t then body else switch v rest default
  end.

(** [value.k = ...] needs a value that holds properties: an object, and an
    array is one.  On [null] the assignment throws, and so it does on a
    primitive value in strict code, which the body of a class is. *)
Definition holds_properties (value : json) : bool :=
  match value with
  | JObj _ | JArr _ => true
  | _ => false
  end.

Definition set_property_error (k : string) (value : json) : JsError :=
  match value with
  | JNull => TypeError ("Cannot set properties of null (setting '" +:+ k +:+ "')")
  | JBool b =>
      TypeError ("Cannot create property '" +:+ k +:+ "' on boolean '" +:+
                 (if b then "true" else "false") +:+ "'")
  | JNum n =>
      TypeError ("Cannot create property '" +:+ k +:+ "' on number '" +:+
                 pretty n +:+ "'")
  | JStr str =>
      TypeError ("Cannot create property '" +:+ k +:+ "' on string '" +:+ str +:+ "'")
  | _ => TypeError ("Cannot create property '" +:+ k +:+ "'")
  end.

(** The decoders of the host: [JSON.parse] on a frame, [JSON.stringify] on
    an action, and [Response.json()] on the body of an answer; [None] is
    the exception that the decoder throws.

    The value of a snapshot is kept as [json()] gives it, and
    [as_RaceDetails] is the cast [as RaceDetails] of the source: it checks
    nothing and gives the value as the interface describes it, for an
    object of the shape of the interface the record of its members.  The
    credential is read at its type. *)
Class Host := {
  JSON_parse : string -> option json;
  JSON_stringify : RTAction -> string;
  Response_json : string -> option json;
  as_RaceDetails : json -> RaceDetails;
  json_Credentials : string -> option Credentials }.

Section Client.

Context {host : Host}.

Definition sendMessage (id : nat) (message : RTAction) : M unit :=
  this <- this_ id ;;
  if negb (ready this) then
    update_this id (fun s => set_messageQueue (messageQueue s ++ [message]) s)
  else
    console c_log (log_sending (JSON_stringify message)) ;;;
    socket_send id (JSON_stringify message).

Definition handleMessage (id : nat) (data : RawData) : M unit :=
  match JSON_parse data with
  | None => throw (SyntaxError "JSON.parse")
  | Some message =>
      type <- message_type message ;;
      switch type
        [ (CHAT_DELETE, emit id (ev_chat_delete message));
          (CHAT_DM, ret tt);
          (CHAT_HISTORY, emit id (ev_chat_history message));
          (CHAT_MESSAGE, emit id (ev_chat_message message));
          (CHAT_PIN, emit id (ev_chat_pin message));
          (CHAT_UNPIN, emit id (ev_chat_unpin message));
          (CHAT_PURGE, emit id (ev_chat_purge message));
          (ERROR, emit id (ev_rt_error message) ;;;
                  console c_log (log_rt_error message));
          (PONG, ret tt);
          (RACE_DATA, emit id (ev_race_data message));
          (RACE_RENDERS, ret tt) ]
        (throw (UnknownMessageType type))
  end.

(** The listeners that the constructor puts on the socket. *)
Definition on_open (id : nat) : M unit :=
  this <- this_ id ;;
  emit id (ev_ready ("wss://racetime.gg" +:+ raceSocketUrl this)) ;;;
  update_this id (set_ready true) ;;;
  this <- this_ id ;;
  forEach (messageQueue this) (fun message =>
    socket_send id (JSON_stringify message)) ;;;
  update_this id (set_messageQueue []).

Definition on_message (id : nat) (data : RawData) : M unit :=
  emit id (ev_raw_message data) ;;;
  handleMessage id data.

Definition on_close (id : nat) (code : Z) (reason : string) : M unit :=
  console c_log (log_socket_closed code reason) ;;;
  emit id (ev_close code reason).

Definition on_error (id : nat) (err : JsError) : M unit :=
  this <- this_ id ;;
  console c_log (log_socket_error err (raceSocketUrl this)) ;;;
  emit id (ev_socket_error err).

Definition listener (id : nat) (ev : SocketEvent) : M unit :=
  match ev with
  | sock_open => on_open id
  | sock_message data => on_message id data
  | sock_close code reason => on_close id code reason
  | sock_error err => on_error id err
  end.

(** [new WebSocketClient(client, raceSocketUrl)]: reads
    [client.auth.access_token], opens the socket and returns the new
    object, not ready and with an empty queue. *)
Definition new_WebSocketClient (raceSocketUrl : string) : M nat :=
  w <- get ;;
  match auth (client w) with
  | None => throw (TypeError "Cannot read properties of undefined (reading 'access_token')")
  | Some cred =>
      let id := length (heap w) in
      effect (NewWebSocket id ("wss://racetime.gg" +:+ raceSocketUrl)
                ("Bearer " +:+ access_token cred)) ;;;
      modify (fun w => set_heap (heap w ++
        [ {| raceSocketUrl := raceSocketUrl; ready := false;
             messageQueue := []; joined := Pending |} ]) w) ;;;
      ret id
  end.

(** The host reports [ev] on the socket of session [id].  An exception that
    leaves the listener is not caught by anyone. *)
Definition escapes {A} (r : Outcome A * World) : Outcome A * World :=
  match r with
  | (Throw e, w1) => (Uncaught e, w1)
  | r => r
  end.

Definition deliver (id : nat) (ev : SocketEvent) : M unit := fun w =>
  match heap w !! id with
  | None => (Ret tt, w)
  | Some _ => escapes (listener id ev w)
  end.

(** ** index.ts: class RacetimeClient *)

(** [await fetch(url, init)]: the call is observed, then the environment
    answers, after some time, with a response or with a rejection; with no
    answer the caller waits for ever. *)
Definition fetch (url : string) (init : RequestInit) : M Response := fun w =>
  let w1 := record [Fetch url init] w in
  match net w1 with
  | [] => (Blocked, w1)
  | (dt, Rejects e) :: rest => (Throw e, advance dt (set_net rest w1))
  | (dt, Responds r) :: rest => (Ret r, advance dt (set_net rest w1))
  end.

Definition this_client : M RacetimeClient := fun w => (Ret (client w), w).

Definition update_client (f : RacetimeClient -> RacetimeClient) : M unit :=
  modify (fun w => set_client (f (client w)) w).

Definition token_request (c : RacetimeClient) : RequestInit :=
  {| method := Some "POST";
     headers := [("Content-Type", "application/x-www-form-urlencoded")];
     body := Some [("client_id", clientId c);
                   ("client_secret", clientSecret c);
                   ("grant_type", "client_credentials")] |}.

Definition authorize : M bool :=
  this <- this_client ;;
  client_authorization <- fetch "https://racetime.gg/o/token" (token_request this) ;;
  if ok client_authorization then
    match json_Credentials (resp_body client_authorization) with
    | None => throw (SyntaxError "Response.json")
    | Some cred =>
        update_client (set_auth (Some cred)) ;;;
        t <- Date_now ;;
        update_client (set_authExpireTime (t + expires_in cred * 1000)) ;;;
        ret true
    end
  else
    effect (ClientEmit (auth_error (resp_statusText client_authorization))) ;;;
    ret false.

(** Lines 53-57 of [joinRaceRoom] and lines 200-204 of
    [authenticatedFetch], which are the same text. *)
Definition refresh_if_expired : M unit :=
  this <- this_client ;;
  t <- Date_now ;;
  if authExpireTime this <=? t then
    authorized <- authorize ;;
    if negb authorized then throw (Error "Unable to refresh access_token!")
    else ret tt
  else ret tt.

(** [init.headers[k] = v] *)
Fixpoint set_header (k v : string) (hs : list (string * string))
  : list (string * string) :=
  match hs with
  | [] => [(k, v)]
  | (k', v') :: hs' =>
      if String.eqb k k' then (k, v) :: hs' else (k', v') :: set_header k v hs'
  end.

Definition authenticatedFetch (url : string) (init : option RequestInit)
  : M Response :=
  refresh_if_expired ;;;
  let init := default {| method := None; headers := []; body := None |} init in
  this <- this_client ;;
  match auth this with
  | None => throw (TypeError "Cannot read properties of undefined (reading 'access_token')")
  | Some cred =>
      fetch url
        {| method := method init;
           headers := set_header "Authorization"
                        ("Bearer " +:+ access_token cred) (headers init);
           body := body init |}
  end.

(** Lines 120-126: the entry of the cache that is returned as it is. *)
Definition cached (raceUrl : string) : M (option RaceDetails) :=
  this <- this_client ;;
  t <- Date_now ;;
  match raceDetailsCache this !! raceUrl with
  | Some raceDetails =>
      if last_updated raceDetails + 1000 * 30 >? t then ret (Some raceDetails)
      else ret None
  | None => ret None
  end.

Definition data_endpoint (raceUrl : string) : string :=
  "https://racetime.gg" +:+ raceUrl +:+ "/data".

(** Lines 127-145; [None] is the [null] that the method returns.  The
    value of [json()] is cast without a check, so a value of any shape goes
    on; the assignment of [last_updated] is what can throw after the
    decoding. *)
Definition fetchRaceData (raceUrl : string) : M (option RaceDetails) :=
  hit <- cached raceUrl ;;
  match hit with
  | Some raceDetails => ret (Some raceDetails)
  | None =>
      raceData <- authenticatedFetch (data_endpoint raceUrl) None ;;
      if ok raceData then
        try_catch
          (match Response_json (resp_body raceData) with
           | None => throw (SyntaxError "Response.json")
           | Some value =>
               let raceDetails := as_RaceDetails value in
               t <- Date_now ;;
               (if holds_properties value then ret tt
                else throw (set_property_error "last_updated" value)) ;;;
               let raceDetails := set_last_updated t raceDetails in
               update_client (fun c =>
                 set_raceDetailsCache
                   (<[raceUrl := raceDetails]> (raceDetailsCache c)) c) ;;;
               ret (Some raceDetails)
           end)
          (fun e =>
             console c_error (log_exception e) ;;;
             try_catch
               (console c_trace (log_text (resp_body raceData)))
               (fun e2 => console c_error (log_exception e2)) ;;;
             ret None)
      else ret None
  end.

(** The promise that [joinRaceRoom] returns: [true] at once, or the promise
    settled by the listeners of a session. *)
Inductive JoinPromise :=
| resolved_true
| of_session (id : nat).

Definition joinRaceRoom (roomUrl : string) : M JoinPromise :=
  this <- this_client ;;
  match sockets this !! roomUrl with
  | None =>
      refresh_if_expired ;;;
      socket <- new_WebSocketClient roomUrl ;;
      update_client (fun c => set_sockets (<[roomUrl := socket]> (sockets c)) c) ;;;
      ret (of_session socket)
  | Some _ => ret resolved_true
  end.

(** [await] of the promise of session [id]: the sockets report their events
    until the promise is settled. *)
Fixpoint settled (id : nat) (events : list (N * nat * SocketEvent)) : M bool :=
  fun w =>
  match joined <$> heap w !! id with
  | Some Fulfilled => (Ret true, set_wire events w)
  | Some (Rejected err) => (Throw err, set_wire events w)
  | Some Pending =>
      match events with
      | [] => (Blocked, set_wire [] w)
      | (dt, i, ev) :: rest =>
          match deliver i ev (advance dt (set_wire rest w)) with
          | (Ret _, w1) => settled id rest w1
          | (Throw e, w1) => (Uncaught e, w1)
          | (Blocked, w1) => (Blocked, w1)
          | (Uncaught e, w1) => (Uncaught e, w1)
          end
      end
  | None => (Blocked, set_wire events w)
  end.

Definition await (p : JoinPromise) : M bool :=
  match p with
  | resolved_true => ret true
  | of_session id => w <- get ;; settled id (wire w)
  end.

Definition cancelRace (raceUrl : string) : M bool :=
  raceData <- fetchRaceData raceUrl ;;
  match raceData with
  | None => throw (TypeError "Cannot read properties of null (reading 'websocket_bot_url')")
  | Some raceData =>
      joining <- joinRaceRoom (websocket_bot_url raceData) ;;
      await joining ;;;
      this <- this_client ;;
      match sockets this !! websocket_bot_url raceData with
      | None => throw (TypeError "Cannot read properties of undefined (reading 'sendMessage')")
      | Some socket => sendMessage socket {| action := CANCEL; data := None |}
      end ;;;
      newData <- fetchRaceData raceUrl ;;
      match newData with
      | None => throw (TypeError "Cannot read properties of null (reading 'status')")
      | Some newData =>
          if String.eqb (RaceStatusText_value (value (status newData)))
                        (RaceStatusText_value CANCELLED)
          then ret true
          else ret false
      end
  end.

End Client.

(** * Definitions for the statements *)

Section Statements.

Context {host : Host}.

(** ** Observations on a trace *)

(** The typed events in a list of effects, with the session that emitted
    each. *)
Definition typed_events (es : list Effect) : list (nat * WebSocketEvents) :=
  omap (fun e => match e with
                 | SessionEmit id ev => if typed_event ev then Some (id, ev) else None
                 | _ => None
                 end) es.

(** The frames handed to the socket of session [id], in order. *)
Definition sent (id : nat) (es : list Effect) : list string :=
  omap (fun e => match e with
                 | SocketSend i frame => if decide (i = id) then Some frame else None
                 | _ => None
                 end) es.

(** The calls of [fetch], in order, and the sockets opened. *)
Definition network_calls (es : list Effect) : list (string * RequestInit) :=
  omap (fun e => match e with Fetch u i => Some (u, i) | _ => None end) es.

Definition connections (es : list Effect) : list (nat * string) :=
  omap (fun e => match e with NewWebSocket id u _ => Some (id, u) | _ => None end) es.

(** ** The inbound frames of the wire protocol, as the specification lists
    them: the kinds by discriminator, and the typed event of each kind.
    Three kinds have no event. *)
Inductive MessageKind :=
| k_chat_history | k_chat_message | k_chat_dm | k_chat_pin | k_chat_delete
| k_chat_purge | k_error | k_pong | k_race_data | k_race_renders.

Definition kind_of_discriminator (s : string) : option MessageKind :=
  if String.eqb s "chat.history" then Some k_chat_history
  else if String.eqb s "chat.message" then Some k_chat_message
  else if String.eqb s "chat.dm" then Some k_chat_dm
  else if String.eqb s "chat.pin" then Some k_chat_pin
  else if String.eqb s "chat.delete" then Some k_chat_delete
  else if String.eqb s "chat.purge" then Some k_chat_purge
  else if String.eqb s "error" then Some k_error
  else if String.eqb s "pong" then Some k_pong
  else if String.eqb s "race.data" then Some k_race_data
  else if String.eqb s "race.renders" then Some k_race_renders
  else None.

Definition frame_kind (message : json) : option MessageKind :=
  match message with
  | JObj members =>
      match member "type" members with
      | Some (JStr s) => kind_of_discriminator s
      | _ => None
      end
  | _ => None
  end.

Definition event_of_kind (k : MessageKind) (message : json) : option WebSocketEvents :=
  match k with
  | k_chat_history => Some (ev_chat_history message)
  | k_chat_message => Some (ev_chat_message message)
  | k_chat_pin => Some (ev_chat_pin message)
  | k_chat_delete => Some (ev_chat_delete message)
  | k_chat_purge => Some (ev_chat_purge message)
  | k_error => Some (ev_rt_error message)
  | k_race_data => Some (ev_race_data message)
  | k_chat_dm | k_pong | k_race_renders => None
  end.

(** [handleMessage] on a frame that decodes to [message], by the value of
    [message.type]: what it returns and what it adds to the trace. *)
Definition handled (id : nat) (message : json) : Outcome unit * list Effect :=
  match frame_kind message with
  | Some k =>
      (Ret tt,
       match event_of_kind k message with
       | Some ev =>
           SessionEmit id ev ::
           match k with k_error => [Console c_log (log_rt_error message)] | _ => [] end
       | None => []
       end)
  | None =>
      (match message with
       | JNull => Throw (TypeError "Cannot read properties of null (reading 'type')")
       | JObj members => Throw (UnknownMessageType (member "type" members))
       | _ => Throw (UnknownMessageType None)
       end, [])
  end.

Definition closed_normally (id : nat) (code : Z) (reason : string) : list Effect :=
  [Console c_log (log_socket_closed code reason);
   SessionEmit id (ev_close code reason)].

Definition closed_abnormally (id : nat) (code : Z) (reason : string) : list Effect :=
  [Console c_log (log_socket_closed code reason);
   SessionEmit id (ev_close code reason);
   Console c_warn (log_abnormal code reason)].

(** What a report of a socket does to the promise of the session that owns
    the socket. *)
Definition settle_on (ev : SocketEvent) (s : WebSocketClient) : PromiseState :=
  match joined s, ev with
  | Pending, sock_open => Fulfilled
  | Pending, sock_error err => Rejected err
  | p, _ => p
  end.

(** The token exchange, as it shows in the trace. *)
Definition exchange (c : RacetimeClient) : Effect :=
  Fetch "https://racetime.gg/o/token" (token_request c).

(** The world after the answer to a call of [fetch] has arrived. *)
Definition answered (call : Effect) (dt : N) (rest : list (N * FetchResult))
    (w : World) : World :=
  advance dt (set_net rest (record [call] w)).

Definition authorized (cred : Credentials) (dt : N) (rest : list (N * FetchResult))
    (w : World) : World :=
  let w1 := answered (exchange (client w)) dt rest w in
  set_client
    (set_authExpireTime (now w1 + expires_in cred * 1000)
       (set_auth (Some cred) (client w))) w1.

(** The request for the snapshot of a race, as it shows in the trace. *)
Definition with_authorization (cred : Credentials) (init : option RequestInit)
  : RequestInit :=
  let init := default {| method := None; headers := []; body := None |} init in
  {| method := method init;
     headers := set_header "Authorization" ("Bearer " +:+ access_token cred)
                  (headers init);
     body := body init |}.

Definition snapshot_request (raceUrl : string) (cred : Credentials) : Effect :=
  Fetch (data_endpoint raceUrl) (with_authorization cred None).

(** The entry that a get may return as it is. *)
Definition fresh (raceUrl : string) (w : World) : option RaceDetails :=
  match raceDetailsCache (client w) !! raceUrl with
  | Some raceDetails =>
      if last_updated raceDetails + 1000 * 30 >? now w then Some raceDetails
      else None
  | None => None
  end.

(** The world after a snapshot has been decoded and stored. *)
Definition stored (raceUrl : string) (d : RaceDetails) (w : World) : World :=
  set_client
    (set_raceDetailsCache
       (<[raceUrl := set_last_updated (now w) d]> (raceDetailsCache (client w)))
       (client w)) w.

(** Lines 130-131 on the body of an answer: the snapshot that goes on, or
    the exception of [json()] or of the assignment of [last_updated]. *)
Definition snapshot_of (body : string) : JsError + RaceDetails :=
  match Response_json body with
  | None => inl (SyntaxError "Response.json")
  | Some value =>
      if holds_properties value then inr (as_RaceDetails value)
      else inl (set_property_error "last_updated" value)
  end.

(** What interface [RaceDetails] asks of a value, for the members that the
    client reads and the ones that identify the race: an object with these
    members, all strings but [status], an object with a string [value].
    The interface has more members, all required but three; a value that
    fails this test is not of the shape of the interface. *)
Definition has_string (k : string) (members : list (string * json)) : bool :=
  match member k members with
  | Some (JStr _) => true
  | _ => false
  end.

Definition RaceDetails_shape (value : json) : bool :=
  match value with
  | JObj members =>
      has_string "name" members && has_string "url" members &&
      has_string "data_url" members && has_string "websocket_url" members &&
      has_string "websocket_bot_url" members &&
      has_string "websocket_oauth_url" members && has_string "info" members &&
      match member "status" members with
      | Some (JObj status) => has_string "value" status
      | _ => false
      end
  | _ => false
  end.

Definition decode_failure (e : JsError) (r : Response) : list Effect :=
  [Console c_error (log_exception e);
   Console c_trace (log_text (resp_body r))].

(** What a get does with the answer [r] to its request. *)
Definition received (raceUrl : string) (r : Response) (w : World)
  : Outcome (option RaceDetails) * World :=
  if ok r then
    match snapshot_of (resp_body r) with
    | inr d => (Ret (Some (set_last_updated (now w) d)), stored raceUrl d w)
    | inl e => (Ret None, record (decode_failure e r) w)
    end
  else (Ret None, w).

Definition new_session (roomUrl : string) : WebSocketClient :=
  {| raceSocketUrl := roomUrl; ready := false; messageQueue := [];
     joined := Pending |}.

(** The world after [joinRaceRoom] has made a session for [roomUrl]. *)
Definition opened (roomUrl : string) (cred : Credentials) (w : World) : World :=
  let id := length (heap w) in
  set_client
    (set_sockets (<[roomUrl := id]> (sockets (client w))) (client w))
    (set_heap (heap w ++ [new_session roomUrl])
       (record [NewWebSocket id ("wss://racetime.gg" +:+ roomUrl)
                  ("Bearer " +:+ access_token cred)] w)).

Definition cancel_command : RTAction := {| action := CANCEL; data := None |}.


(** ** The life of a client *)

(** A step of the life of a client: a report of a socket, a call of one of
    its methods run to its end (or as far as it gets) with no other call
    in between, or a move of the environment, which changes neither the
    client nor the sessions.  Calls that overlap are in [overlapping]. *)
Inductive step : World -> World -> Prop :=
| step_deliver id ev w : step w (deliver id ev w).2
| step_joinRaceRoom roomUrl w : step w (joinRaceRoom roomUrl w).2
| step_await joining w : step w (await joining w).2
| step_sendMessage id message w : step w (sendMessage id message w).2
| step_fetchRaceData raceUrl w : step w (fetchRaceData raceUrl w).2
| step_authenticatedFetch url init w : step w (authenticatedFetch url init w).2
| step_cancelRace raceUrl w : step w (cancelRace raceUrl w).2
| step_environment w w' : client w' = client w -> heap w' = heap w -> step w w'.

End Statements.

(** * A host and some worlds to run the client in *)

Definition sample_frame (kind : string) : json :=
  JObj [("type", JStr kind);
        ("message", JObj [("id", JStr "m1"); ("message", JStr "hello")])].

Definition sample_parse (data : RawData) : option json :=
  if String.eqb data "a chat.message frame" then Some (sample_frame "chat.message")
  else if String.eqb data "a chat.pin frame" then Some (sample_frame "chat.pin")
  else if String.eqb data "a bogus.kind frame" then Some (JObj [("type", JStr "bogus.kind")])
  else None.

Definition race_url : string := "/abc/def-123".

Definition room : string := "/ws/o/bot/xyz".

Definition sample_race : RaceDetails :=
  {| last_updated := 0; name := "abc/def-123";
     status := {| value := OPEN; verbose_value := "Open"; help_text := "" |};
     url := race_url; data_url := "/abc/def-123/data";
     websocket_url := "/ws/race/def-123"; websocket_bot_url := room;
     websocket_oauth_url := "/ws/o/race/def-123"; info := "" |}.

Definition sample_credentials : Credentials :=
  {| access_token := "token"; expires_in := 3600; token_type := "Bearer";
     scope := "read chat_message race_action" |}.

(** The body of the answer that serves [sample_race]. *)
Definition sample_race_json : json :=
  JObj [("name", JStr "abc/def-123");
        ("status", JObj [("value", JStr "open"); ("verbose_value", JStr "Open");
                         ("help_text", JStr "")]);
        ("url", JStr race_url); ("data_url", JStr "/abc/def-123/data");
        ("websocket_url", JStr "/ws/race/def-123");
        ("websocket_bot_url", JStr room);
        ("websocket_oauth_url", JStr "/ws/o/race/def-123");
        ("info", JStr "")].

(** The reads of the sample host on a value cast to [RaceDetails]: the
    members of the value; a member that is not there, or is no string,
    reads as the empty text here, and a status that is not there as open. *)
Definition sample_string (k : string) (value : json) : string :=
  match value with
  | JObj members =>
      match member k members with
      | Some (JStr str) => str
      | _ => ""
      end
  | _ => ""
  end.

Definition sample_status (value : json) : RaceStatus :=
  match value with
  | JObj members =>
      let status := default JNull (member "status" members) in
      {| value :=
           if String.eqb (sample_string "value" status) "cancelled" then CANCELLED
           else if String.eqb (sample_string "value" status) "finished" then FINISHED
           else if String.eqb (sample_string "value" status) "in_progress" then IN_PROGRESS
           else if String.eqb (sample_string "value" status) "pending" then PENDING
           else if String.eqb (sample_string "value" status) "invitational" then INVITATIONAL
           else OPEN;
         verbose_value := sample_string "verbose_value" status;
         help_text := sample_string "help_text" status |}
  | _ => {| value := OPEN; verbose_value := ""; help_text := "" |}
  end.

Definition sample_cast (value : json) : RaceDetails :=
  {| last_updated := 0; name := sample_string "name" value;
     status := sample_status value;
     url := sample_string "url" value; data_url := sample_string "data_url" value;
     websocket_url := sample_string "websocket_url" value;
     websocket_bot_url := sample_string "websocket_bot_url" value;
     websocket_oauth_url := sample_string "websocket_oauth_url" value;
     info := sample_string "info" value |}.

Definition sample_json (body : string) : option json :=
  if String.eqb body "a race" then Some sample_race_json
  else if String.eqb body "{}" then Some (JObj [])
  else if String.eqb body "[]" then Some (JArr [])
  else if String.eqb body "null" then Some JNull
  else if String.eqb body "5" then Some (JNum 5)
  else None.

Definition sample_host : Host :=
  {| JSON_parse := sample_parse;
     JSON_stringify := fun a => RTPacketTypes_value (action a);
     Response_json := sample_json;
     as_RaceDetails := sample_cast;
     json_Credentials := fun body =>
       if String.eqb body "a credential" then Some sample_credentials else None |}.

Definition response (status : Z) (text body : string) : Response :=
  {| resp_status := status; resp_statusText := text; resp_headers := [];
     resp_body := body |}.

(** A client as the constructor leaves it: the expiry instant in the year
    2000, no credential, no session, nothing cached. *)
Definition new_client : RacetimeClient :=
  {| clientId := "id"; clientSecret := "secret"; category := "cat";
     auth := None; authExpireTime := 946684800000;
     sockets := ∅; raceDetailsCache := ∅ |}.

Definition authorized_client : RacetimeClient :=
  set_authExpireTime 1700003600000 (set_auth (Some sample_credentials) new_client).

Definition world (c : RacetimeClient) (n : list (N * FetchResult))
    (l : list (N * nat * SocketEvent)) : World :=
  {| client := c; heap := []; now := 1700000000000; net := n; wire := l;
     trace := [] |}.

(** The token endpoint answers 401; it cannot be reached; it grants a
    credential and the race is served, and the socket opens. *)
Definition w_refused : World :=
  world new_client [(5%N, Responds (response 401 "Unauthorized" ""))] [].


Definition w_granted : World :=
  world new_client
    [(5%N, Responds (response 200 "OK" "a credential"));
     (7%N, Responds (response 200 "OK" "a race"))]
    [(3%N, 0%nat, sock_open)].

(** A client with a valid credential; the race is not found; the body of
    the answer is no race. *)
Definition w_authorized : World := world authorized_client [] [].

Definition w_not_found : World :=
  world authorized_client [(5%N, Responds (response 404 "Not Found" ""))] [].

Definition w_not_found_twice : World :=
  world authorized_client
    [(5%N, Responds (response 404 "Not Found" ""));
     (5%N, Responds (response 404 "Not Found" ""))] [].

Definition w_undecoded : World :=
  world authorized_client [(5%N, Responds (response 200 "OK" "<html>"))] [].

(** The answer is OK and its body is an object with no member; it is
    [null]; it is the race. *)
Definition w_unshaped : World :=
  world authorized_client [(5%N, Responds (response 200 "OK" "{}"))] [].

Definition w_null_body : World :=
  world authorized_client [(5%N, Responds (response 200 "OK" "null"))] [].

Definition w_served : World :=
  world authorized_client [(7%N, Responds (response 200 "OK" "a race"))] [].

(** The request for the race is rejected by the transport. *)
Definition w_unreachable_race : World :=
  world authorized_client [(5%N, Rejects (HostError "fetch failed"))] [].

(** The room joined, then a cancel command sent before the socket is open. *)
Definition w_joined : World := (joinRaceRoom (host := sample_host) room w_authorized).2.

Definition w_queued : World :=
  (sendMessage (host := sample_host) 0 cancel_command w_joined).2.

(** A snapshot stored ten seconds ago. *)
Definition w_cached : World :=
  world (set_raceDetailsCache
           {[ race_url := set_last_updated 1699999990000 sample_race ]}
           authorized_client) [] [].

(** The steps of [cancelRace] from [w_granted]. *)
Definition snapshot : RaceDetails := set_last_updated 1700000000012 sample_race.





(** * The rest of the client *)

(** ** types.ts: the listing of a category *)

(** [RaceData extends RTMessage] *)
Record RaceData := { type : string; race : RaceDetails }.

(** [CategoryDetail]: the member the client reads and the identifying
    ones; the other members are carried along by the decoder. *)
Record CategoryDetail := {
  short_name : string;
  slug : string;
  current_races : list RaceData }.

(** [Response.json()] read at the type [CategoryDetail]. *)
Class ListingHost := {
  json_CategoryDetail : string -> option CategoryDetail }.

(** [race.headers.get(name)]: the value of the header, or [null]. *)
Fixpoint headers_get (name : string) (hs : list (string * string)) : option string :=
  match hs with
  | [] => None
  | (k, v) :: hs' => if String.eqb name k then Some v else headers_get name hs'
  end.

(** The [Location] of a created race, as [createRace] passes it on.  The
    source hands the value of [headers.get] to [fetchRaceData] as a string;
    the [null] of a missing header reads ["null"] in the URL that is built
    from it.  As a key of the cache the model does not tell that [null]
    from the text, so the properties of [createRace] are stated for answers
    that carry the header. *)
Definition Location (r : Response) : string :=
  default "null" (headers_get "Location" (resp_headers r)).

Section ClientRest.

Context {host : Host} {listing : ListingHost}.

(** ** index.ts: the other methods of class RacetimeClient *)

(** The request of [createRace]; [raceData] is the list of pairs that
    [new URLSearchParams(raceData)] reads from the iterable. *)
Definition startrace_request (raceData : list (string * string)) : RequestInit :=
  {| method := Some "POST";
     headers := [("Content-Type", "application/x-www-form-urlencoded")];
     body := Some raceData |}.

Definition startrace_endpoint (c : RacetimeClient) : string :=
  "https://racetime.gg/o/" +:+ category c +:+ "/startrace".

Definition createRace (raceData : list (string * string)) (connectToRoom : bool)
  : M (option RaceDetails) :=
  this <- this_client ;;
  race <- authenticatedFetch (startrace_endpoint this)
            (Some (startrace_request raceData)) ;;
  if resp_status race =? 201 then
    let raceUrl := Location race in
    raceData <- fetchRaceData raceUrl ;;
    (if connectToRoom then
       match raceData with
       | None => throw (TypeError "Cannot read properties of null (reading 'websocket_bot_url')")
       | Some details =>
           joining <- joinRaceRoom (websocket_bot_url details) ;;
           await joining ;;;
           ret tt
       end
     else ret tt) ;;;
    ret raceData
  else throw (Error ("Unable to create race: " +:+ resp_body race)).

Definition listing_endpoint (c : RacetimeClient) : string :=
  "https://racetime.gg/" +:+ category c +:+ "/data".

(** [None] is the [undefined] of a call that falls off the end. *)
Definition fetchRaces : M (option (list RaceData)) :=
  this <- this_client ;;
  races <- authenticatedFetch (listing_endpoint this) None ;;
  if ok races then
    match json_CategoryDetail (resp_body races) with
    | None => throw (SyntaxError "Response.json")
    | Some categoryDetail => ret (Some (current_races categoryDetail))
    end
  else ret None.

(** The action of [sendMessage]; [guid] is what the host makes of
    [Math.round(Math.random() * 10000) + ""]. *)
Definition message_action (message : string) (pin : bool) (guid : string) : RTAction :=
  {| action := MESSAGE;
     data := Some (JObj [("message", JStr message); ("pinned", JBool pin);
                         ("guid", JStr guid)]) |}.

(** [RacetimeClient.sendMessage(raceUrl, message, pin = false)]; the method
    of the session that it ends in is [sendMessage] above. *)
Definition RacetimeClient_sendMessage (guid : string) (raceUrl message : string)
    (pin : option bool) : M unit :=
  let pin := default false pin in
  raceData <- fetchRaceData raceUrl ;;
  match raceData with
  | None => throw (TypeError "Cannot read properties of null (reading 'websocket_bot_url')")
  | Some raceData =>
      joining <- joinRaceRoom (websocket_bot_url raceData) ;;
      await joining ;;;
      this <- this_client ;;
      match sockets this !! websocket_bot_url raceData with
      | None => throw (TypeError "Cannot read properties of undefined (reading 'sendMessage')")
      | Some socket => sendMessage socket (message_action message pin guid)
      end
  end.

(** ** The life of a client, with all its methods *)

Inductive life : World -> World -> Prop :=
| life_step w w' : step w w' -> life w w'
| life_createRace raceData connectToRoom w :
    life w (createRace raceData connectToRoom w).2
| life_fetchRaces w : life w (fetchRaces w).2
| life_sendMessage guid raceUrl message pin w :
    life w (RacetimeClient_sendMessage guid raceUrl message pin w).2.

(** ** A command handed to a session *)


(** ** Calls that overlap

    A method that awaits gives way, until the answer comes, to the other
    calls of the client and to the reports of the sockets; what runs in one
    piece is the code between two awaits.  In [life] every method runs from
    its call to its end with nothing in between.  The pieces of the methods
    that change the client or a session are a send on a session, which is a
    step of [life] already, and the three below; every other piece only
    calls the network, emits or logs, as the environment of [life] does. *)

(** [authorize], lines 188-191: what follows [await
    client_authorization.json()]. *)
Definition store_credential (cred : Credentials) : M bool :=
  update_client (set_auth (Some cred)) ;;;
  t <- Date_now ;;
  update_client (set_authExpireTime (t + expires_in cred * 1000)) ;;;
  ret true.

(** [joinRaceRoom], lines 58-66: what follows the check of the credential.
    The test [this.sockets.has(roomUrl)] was made before that check; when
    the check awaits [authorize], another join of the room can pass the
    same test, and the later of the two pieces runs with the room already
    registered. *)
Definition register_session (roomUrl : string) : M JoinPromise :=
  socket <- new_WebSocketClient roomUrl ;;
  update_client (fun c => set_sockets (<[roomUrl := socket]> (sockets c)) c) ;;;
  ret (of_session socket).

(** [fetchRaceData], lines 131-133: what follows [await
    raceData.clone().json()] on a value that holds properties. *)
Definition store_snapshot (raceUrl : string) (raceDetails : RaceDetails)
  : M (option RaceDetails) :=
  t <- Date_now ;;
  let raceDetails := set_last_updated t raceDetails in
  update_client (fun c =>
    set_raceDetailsCache (<[raceUrl := raceDetails]> (raceDetailsCache c)) c) ;;;
  ret (Some raceDetails).

(** The life of a client whose calls may overlap: the steps of [life], and
    the pieces of a call that another call has overtaken. *)
Inductive overlapping : World -> World -> Prop :=
| overlapping_life w w' : life w w' -> overlapping w w'
| overlapping_credential cred w : overlapping w (store_credential cred w).2
| overlapping_session roomUrl w : overlapping w (register_session roomUrl w).2
| overlapping_snapshot raceUrl raceDetails w :
    overlapping w (store_snapshot raceUrl raceDetails w).2.

End ClientRest.

(** ** What happens to the sessions *)

(** The three changes that the code makes to a session: its socket opens,
    its socket fails, an action is queued while it is not ready. *)
Definition at_open (s : WebSocketClient) : WebSocketClient :=
  set_messageQueue [] (set_ready true (settle Fulfilled s)).

Definition enqueue (message : RTAction) (s : WebSocketClient) : WebSocketClient :=
  set_messageQueue (messageQueue s ++ [message]) s.

Inductive session_update : WebSocketClient -> WebSocketClient -> Prop :=
| update_open s : session_update s (at_open s)
| update_error s err : session_update s (settle (Rejected err) s)
| update_enqueue s message : ready s = false -> session_update s (enqueue message s).

(** A change of the heap: one session is updated, or a new session is put
    at the end. *)
Inductive heap_step : list WebSocketClient -> list WebSocketClient -> Prop :=
| heap_update h id s s' :
    h !! id = Some s -> session_update s s' -> heap_step h (<[id := s']> h)
| heap_new h roomUrl : heap_step h (h ++ [new_session roomUrl]).

Definition sessions_evolve (w w' : World) : Prop :=
  rtc heap_step (heap w) (heap w').

Definition keeps {A} (R : World -> World -> Prop) (m : M A) : Prop :=
  forall w, R w (m w).2.

(** Every room of the registry is mapped to a session of the heap that was
    made for that room. *)
Definition coherent (w : World) : Prop :=
  forall roomUrl id,
    sockets (client w) !! roomUrl = Some id ->
    exists s, heap w !! id = Some s /\ raceSocketUrl s = roomUrl.


(** A ready session has nothing queued. *)
Definition flushed (s : WebSocketClient) : Prop :=
  ready s = true -> messageQueue s = [].

(** The cache forgets no race. *)
Definition cache_grows (w w' : World) : Prop :=
  dom (raceDetailsCache (client w)) ⊆ dom (raceDetailsCache (client w')).

(** The four things that no method undoes: the sessions only evolve, the
    registry only grows, a coherent registry stays coherent, and the cache
    forgets no race. *)
Definition grows (w w' : World) : Prop :=
  sessions_evolve w w' /\
  sockets (client w) ⊆ sockets (client w') /\
  (coherent w -> coherent w') /\
  cache_grows w w'.

(** A session [s'] is a later state of the session [s]: the same room; once
    ready it stays ready; a settled join stays as it was settled; and until
    the socket opens nothing that was queued is dropped. *)
Definition later_of (s s' : WebSocketClient) : Prop :=
  raceSocketUrl s' = raceSocketUrl s /\
  (ready s = true -> ready s' = true) /\
  (joined s <> Pending -> joined s' = joined s) /\
  (ready s' = false -> messageQueue s `prefix_of` messageQueue s').

(** The effects that touch no socket. *)
Definition off_socket (e : Effect) : bool :=
  match e with
  | NewWebSocket _ _ _ | SocketSend _ _ => false
  | _ => true
  end.

(** A method that stays off the sockets: it makes no session, registers no
    room, opens no socket and sends nothing. *)
Definition silent (w w' : World) : Prop :=
  heap w' = heap w /\
  sockets (client w') = sockets (client w) /\
  exists new, trace w' = trace w ++ new /\ forallb off_socket new = true.

(** The effects that stay in the process: events and log lines. *)
Definition in_process (e : Effect) : bool :=
  match e with
  | SessionEmit _ _ | ClientEmit _ | Console _ _ => true
  | _ => false
  end.

(** ** More worlds *)

Definition sample_category : CategoryDetail :=
  {| short_name := "cat"; slug := "cat";
     current_races := [ {| type := "race"; race := sample_race |} ] |}.

Definition sample_listing : ListingHost :=
  {| json_CategoryDetail := fun body =>
       if String.eqb body "a category" then Some sample_category else None |}.

(** The snapshot is cached and the room is joined; its socket is not open. *)
Definition w_cached_joined : World :=
  (joinRaceRoom (host := sample_host) room w_cached).2.

(** The category refuses the new race; it creates it, serves it, and the
    socket of its room opens. *)
Definition w_create_refused : World :=
  world authorized_client [(5%N, Responds (response 400 "Bad Request" "goal: required"))] [].

Definition created : Response :=
  {| resp_status := 201; resp_statusText := "Created";
     resp_headers := [("Content-Type", "text/html"); ("Location", race_url)];
     resp_body := "" |}.

Definition w_created : World :=
  world authorized_client
    [(5%N, Responds created); (7%N, Responds (response 200 "OK" "a race"))]
    [(3%N, 0%nat, sock_open)].

(** The socket of the first session fails; it closes before it has opened. *)
Definition w_failing : World :=
  world authorized_client [] [(3%N, 0%nat, sock_error (HostError "ECONNREFUSED"))].

Definition w_closing : World :=
  world authorized_client [] [(3%N, 0%nat, sock_close 1000 "bye")].

(** The race is created, but its snapshot is not served. *)
Definition w_created_unserved : World :=
  world authorized_client
    [(5%N, Responds created); (7%N, Responds (response 404 "Not Found" ""))] [].


(** * Properties *)

Section Properties.

Context {host : Host}.

(** ** Running the monad *)

Lemma bind_Ret {A B} (m : M A) (k : A -> M B) w a w1 :
  m w = (Ret a, w1) -> bind m k w = k a w1.
Proof. intros H. unfold bind. by rewrite H. Qed.

Lemma bind_Throw {A B} (m : M A) (k : A -> M B) w e w1 :
  m w = (Throw e, w1) -> bind m k w = (Throw e, w1).
Proof. intros H. unfold bind. by rewrite H. Qed.

Lemma record_record es1 es2 w : record es2 (record es1 w) = record (es1 ++ es2) w.
Proof. unfold record. simpl. by rewrite <- app_assoc. Qed.

Lemma record_nil w : record [] w = w.
Proof. destruct w. unfold record. simpl. by rewrite app_nil_r. Qed.

Lemma sent_app id es1 es2 : sent id (es1 ++ es2) = sent id es1 ++ sent id es2.
Proof. apply omap_app. Qed.

Lemma handleMessage_handled id data message w :
  JSON_parse data = Some message ->
  handleMessage id data w = ((handled id message).1, record (handled id message).2 w).
Proof.
  intros Hp. unfold handleMessage. rewrite Hp.
  destruct message as [| b | n | s | items | members];
    try (cbn; by rewrite record_nil).
  unfold handled, frame_kind. cbn.
  destruct (member "type" members) as [[| b | n | s | items | ms] |];
    try (cbn; by rewrite record_nil).
  unfold kind_of_discriminator, bind, message_type, ret. cbn.
  repeat match goal with
  | |- context [String.eqb s ?c] =>
      destruct (String.eqb_spec s c) as [-> | ?];
        [cbn; rewrite ?record_nil; try reflexivity;
         unfold console, effect, modify; by rewrite record_record |]
  end.
  cbn. by rewrite record_nil.
Qed.

Lemma handleMessage_undecoded id data w :
  JSON_parse data = None ->
  handleMessage id data w = (Throw (SyntaxError "JSON.parse"), w).
Proof. intros Hp. unfold handleMessage. by rewrite Hp. Qed.

Lemma handled_typed_events id message :
  typed_events (handled id message).2 =
  match frame_kind message with
  | Some k => match event_of_kind k message with
              | Some ev => [(id, ev)]
              | None => []
              end
  | None => []
  end.
Proof.
  unfold handled. destruct (frame_kind message) as [k |]; [| done].
  by destruct k.
Qed.

(** C3. Inbound demultiplexing.  [handleMessage] decodes the frame once.  If
    the decoded frame has the discriminator of a kind of the protocol, the
    call returns and emits exactly the typed event of that kind, carrying
    the decoded frame as it is, or no typed event for the kinds chat.dm,
    pong and race.renders.  If the frame does not decode or its type is not
    the discriminator of a kind, the call throws and emits no typed
    event. *)
Theorem handleMessage_dispatch (id : nat) (data : RawData) (w : World) :
  exists new : list Effect,
    (handleMessage id data w).2 = record new w /\
    match JSON_parse data with
    | Some message =>
        match frame_kind message with
        | Some k =>
            (handleMessage id data w).1 = Ret tt /\
            typed_events new =
              match event_of_kind k message with
              | Some ev => [(id, ev)]
              | None => []
              end /\
            (event_of_kind k message = None <->
             k = k_chat_dm \/ k = k_race_renders \/ k = k_pong)
        | None =>
            (exists e, (handleMessage id data w).1 = Throw e) /\
            typed_events new = []
        end
    | None =>
        (exists e, (handleMessage id data w).1 = Throw e) /\
        typed_events new = []
    end.
Proof.
  destruct (JSON_parse data) as [message |] eqn:Hp.
  - exists (handled id message).2.
    rewrite (handleMessage_handled _ _ _ _ Hp). split; [done |].
    rewrite handled_typed_events. unfold handled.
    destruct (frame_kind message) as [k |] eqn:Hk.
    + split; [done |]. split; [done |].
      destruct k; cbn; split; intros H; try discriminate H; auto;
        destruct H as [H | [H | H]]; discriminate H.
    + split; [| done]. destruct message; eauto.
  - exists []. rewrite (handleMessage_undecoded _ _ _ Hp), record_nil.
    split; [done |]. split; [eauto | done].
Qed.

(** C10. No frame makes [handleMessage] emit chat-unpin.  The members
    [CHAT_PIN] and [CHAT_UNPIN] of the enum have the same value, so a value
    equal to the label of the unpin case is equal to the label of the pin
    case, which comes first in the switch; a frame with the discriminator
    chat.pin emits chat-pin, once, and nothing else. *)
Theorem chat_unpin_never_emitted (id : nat) (data : RawData) (w : World) :
  RTMessageTypes_value CHAT_UNPIN = RTMessageTypes_value CHAT_PIN /\
  (forall v, strict_equals v CHAT_UNPIN = strict_equals v CHAT_PIN) /\
  exists new : list Effect,
    (handleMessage id data w).2 = record new w /\
    (forall i m, SessionEmit i (ev_chat_unpin m) ∉ new) /\
    (forall members,
       JSON_parse data = Some (JObj members) ->
       member "type" members = Some (JStr "chat.pin") ->
       new = [SessionEmit id (ev_chat_pin (JObj members))]).
Proof.
  split; [done |]. split; [done |].
  destruct (JSON_parse data) as [message |] eqn:Hp.
  - exists (handled id message).2.
    rewrite (handleMessage_handled _ _ _ _ Hp). split; [done |]. split.
    + intros i m. unfold handled.
      destruct (frame_kind message) as [k |]; [| apply not_elem_of_nil].
      destruct k; cbn; rewrite ?elem_of_cons; try apply not_elem_of_nil;
        intros H; repeat (destruct H as [H | H]; [discriminate H |]);
        by apply not_elem_of_nil in H.
    + intros members [= ->] Ht. unfold handled, frame_kind. by rewrite Ht.
  - exists []. rewrite (handleMessage_undecoded _ _ _ Hp), record_nil.
    split; [done |]. split; [intros; apply not_elem_of_nil | intros; discriminate].
Qed.

(** ** The outbound queue *)

Lemma alter_insert {A} (f : A -> A) (l : list A) (i : nat) (x : A) :
  l !! i = Some x -> alter f i l = <[i := f x]> l.
Proof.
  revert i. induction l as [| y l IH]; intros [| i] H; try done.
  - by injection H as ->.
  - cbn. f_equal. by apply IH.
Qed.

Lemma set_heap_set_heap h1 h2 w : set_heap h2 (set_heap h1 w) = set_heap h2 w.
Proof. done. Qed.

Lemma set_heap_id w : set_heap (heap w) w = w.
Proof. by destruct w. Qed.

Lemma sendMessage_ready id s message w :
  heap w !! id = Some s -> ready s = true ->
  sendMessage id message w =
    (Ret tt, record [Console c_log (log_sending (JSON_stringify message));
                     SocketSend id (JSON_stringify message)] w).
Proof.
  intros Hs Hr. unfold sendMessage, bind, this_. rewrite Hs, Hr. cbn.
  unfold socket_send, effect, modify. by rewrite record_record.
Qed.

Lemma sendMessage_not_ready id s message w :
  heap w !! id = Some s -> ready s = false ->
  sendMessage id message w =
    (Ret tt, set_heap (<[id := set_messageQueue (messageQueue s ++ [message]) s]>
                         (heap w)) w).
Proof.
  intros Hs Hr. unfold sendMessage, bind, this_. rewrite Hs, Hr. cbn.
  unfold update_this, modify. by rewrite (alter_insert _ _ _ _ Hs).
Qed.

(** Sends made before the socket is open pile up in the order they are
    made. *)
Lemma sendMessage_not_ready_all id messages : forall s w,
  heap w !! id = Some s -> ready s = false ->
  forEach messages (sendMessage id) w =
    (Ret tt, set_heap (<[id := set_messageQueue (messageQueue s ++ messages) s]>
                         (heap w)) w).
Proof.
  induction messages as [| m ms IH]; intros s w Hs Hr.
  - cbn. unfold ret. f_equal. rewrite app_nil_r.
    replace (set_messageQueue (messageQueue s) s) with s by by destruct s.
    by rewrite list_insert_id, set_heap_id.
  - cbn. erewrite bind_Ret; [| by apply sendMessage_not_ready].
    rewrite (IH (set_messageQueue (messageQueue s ++ [m]) s)); cbn.
    + rewrite set_heap_set_heap, list_insert_insert_eq.
      by rewrite <- app_assoc.
    + apply list_lookup_insert_eq. by eapply lookup_lt_Some.
    + done.
Qed.

Lemma flush_queue id (queue : list RTAction) w :
  forEach queue (fun message => socket_send id (JSON_stringify message)) w =
    (Ret tt, record (map (fun message => SocketSend id (JSON_stringify message)) queue) w).
Proof.
  revert w. induction queue as [| m q IH]; intros w.
  - cbn. by rewrite record_nil.
  - cbn. unfold bind, socket_send, effect, modify. rewrite IH.
    by rewrite record_record.
Qed.

(** The listener of the socket's open event: ready is announced, the flag is
    set, the queue is handed to the socket from its head, and emptied. *)
Lemma on_open_flush id s w :
  heap w !! id = Some s ->
  on_open id w =
    (Ret tt,
     set_heap (<[id := set_messageQueue [] (set_ready true (settle Fulfilled s))]>
                 (heap w))
       (record (SessionEmit id (ev_ready ("wss://racetime.gg" +:+ raceSocketUrl s)) ::
                map (fun message => SocketSend id (JSON_stringify message))
                    (messageQueue s)) w)).
Proof.
  intros Hs. unfold on_open.
  erewrite bind_Ret; [| unfold this_; by rewrite Hs].
  unfold emit, resolve, effect, update_this, modify, bind at 1 2 3. cbn.
  rewrite (alter_insert _ _ _ _ Hs).
  assert (Hlt : (id < length (heap w))%nat) by by eapply lookup_lt_Some.
  rewrite (alter_insert _ _ _ (settle Fulfilled s))
    by by apply list_lookup_insert_eq.
  rewrite list_insert_insert_eq.
  erewrite bind_Ret; [| unfold this_; cbn; by rewrite list_lookup_insert_eq].
  assert (Hq : messageQueue (set_ready true (settle Fulfilled s)) = messageQueue s).
  { unfold settle. by destruct (joined s). }
  rewrite Hq. unfold bind. rewrite flush_queue. cbn.
  rewrite (alter_insert _ _ _ (set_ready true (settle Fulfilled s)))
    by by apply list_lookup_insert_eq.
  rewrite list_insert_insert_eq. unfold record. cbn.
  by rewrite <- app_assoc.
Qed.

Lemma sent_sends id (frames : list string) :
  sent id (map (SocketSend id) frames) = frames.
Proof.
  unfold sent. induction frames as [| f fs IH]; [done |].
  csimpl. rewrite decide_True by done. by rewrite IH.
Qed.

(** Sends made on a ready session reach the socket in the order they are
    made. *)
Lemma sendMessage_ready_all id messages : forall s w,
  heap w !! id = Some s -> ready s = true ->
  exists w1,
    forEach messages (sendMessage id) w = (Ret tt, w1) /\
    heap w1 = heap w /\
    sent id (trace w1) = sent id (trace w) ++ map JSON_stringify messages.
Proof.
  induction messages as [| m ms IH]; intros s w Hs Hr.
  - exists w. by rewrite app_nil_r.
  - cbn [forEach]. erewrite bind_Ret; [| by eapply sendMessage_ready].
    destruct (IH s (record [Console c_log (log_sending (JSON_stringify m));
                            SocketSend id (JSON_stringify m)] w) Hs Hr)
      as (w1 & Hrun & Hheap & Hsent).
    exists w1. split; [exact Hrun |]. split; [exact Hheap |].
    rewrite Hsent. cbn [trace record]. rewrite sent_app, <- app_assoc. f_equal.
    unfold sent. csimpl. by rewrite decide_True.
Qed.

(** C6. The outbound queue of a session.  A send on a ready session hands
    the serialized action to the socket at once and leaves the queue alone.
    A send on a session that is not ready hands nothing to the socket and
    puts the action at the end of the queue.  When the socket opens after
    any sequence of such sends, the session becomes ready, the socket
    receives the queued actions, serialized, in the order of the sends, and
    the queue is empty; the sends made after that follow them, so the
    socket receives every action in the order it was sent. *)
Theorem sendMessage_queue_fifo (id : nat) (s : WebSocketClient) (w : World) :
  heap w !! id = Some s ->
  (ready s = true -> forall message,
     sendMessage id message w =
       (Ret tt, record [Console c_log (log_sending (JSON_stringify message));
                        SocketSend id (JSON_stringify message)] w)) /\
  (ready s = false -> forall message,
     exists w1,
       sendMessage id message w = (Ret tt, w1) /\
       trace w1 = trace w /\
       heap w1 !! id = Some (set_messageQueue (messageQueue s ++ [message]) s)) /\
  (ready s = false -> forall messages,
     exists w1 w2 s2,
       forEach messages (sendMessage id) w = (Ret tt, w1) /\
       sent id (trace w1) = sent id (trace w) /\
       on_open id w1 = (Ret tt, w2) /\
       sent id (trace w2) =
         sent id (trace w) ++ map JSON_stringify (messageQueue s ++ messages) /\
       heap w2 !! id = Some s2 /\ ready s2 = true /\ messageQueue s2 = [] /\
       forall later, exists w3,
         forEach later (sendMessage id) w2 = (Ret tt, w3) /\
         sent id (trace w3) =
           sent id (trace w) ++
           map JSON_stringify (messageQueue s ++ messages ++ later)).
Proof.
  intros Hs.
  assert (Hlt : (id < length (heap w))%nat) by by eapply lookup_lt_Some.
  split; [| split].
  - intros Hr message. by apply sendMessage_ready with s.
  - intros Hr message. eexists. split; [by apply sendMessage_not_ready |].
    split; [done |]. cbn. by apply list_lookup_insert_eq.
  - intros Hr messages.
    pose proof (sendMessage_not_ready_all id messages s w Hs Hr) as H1.
    set (s1 := set_messageQueue (messageQueue s ++ messages) s) in *.
    set (w1 := set_heap (<[id := s1]> (heap w)) w) in *.
    assert (Hs1 : heap w1 !! id = Some s1) by by apply list_lookup_insert_eq.
    pose proof (on_open_flush id s1 w1 Hs1) as H2.
    eexists w1, _, (set_messageQueue [] (set_ready true (settle Fulfilled s1))).
    split; [exact H1 |]. split; [done |].
    assert (Hsent : sent id (trace (on_open id w1).2) =
              sent id (trace w) ++ map JSON_stringify (messageQueue s ++ messages)).
    { rewrite H2. subst w1 s1.
      cbn [snd trace set_heap record messageQueue set_messageQueue raceSocketUrl].
      rewrite sent_app. f_equal.
      rewrite <- (sent_sends id (map JSON_stringify (messageQueue s ++ messages))).
      rewrite map_map. unfold sent. by csimpl. }
    assert (Hs2 : heap (on_open id w1).2 !! id =
              Some (set_messageQueue [] (set_ready true (settle Fulfilled s1)))).
    { rewrite H2. subst w1 s1. cbn [snd heap set_heap record].
      rewrite list_insert_insert_eq. by apply list_lookup_insert_eq. }
    rewrite H2 in Hsent, Hs2. cbn [snd] in Hsent, Hs2.
    split; [exact H2 |]. split; [exact Hsent |]. split; [exact Hs2 |].
    split; [done |]. split; [done |].
    intros later.
    destruct (sendMessage_ready_all id later _ _ Hs2 eq_refl) as (w3 & Hrun & _ & Hlater).
    exists w3. split; [exact Hrun |].
    by rewrite Hlater, Hsent, <- app_assoc, <- map_app, <- app_assoc.
Qed.

(** ** The listeners of a socket, one by one *)

Lemma on_close_normal id code reason w :
  code <= 1000 ->
  on_close id code reason w = (Ret tt, record (closed_normally id code reason) w).
Proof.
  intros Hc. unfold on_close, emit, joinRaceRoom_listeners.
  destruct (Z.ltb_spec 1000 code) as [? | _]; [lia |].
  unfold console, effect, modify, bind, ret. by rewrite record_record.
Qed.

Lemma on_close_abnormal id code reason w :
  1000 < code ->
  on_close id code reason w =
    (Throw (TypeError "socket.reconnect is not a function"),
     record (closed_abnormally id code reason) w).
Proof.
  intros Hc. unfold on_close, emit, joinRaceRoom_listeners.
  destruct (Z.ltb_spec 1000 code) as [_ | ?]; [| lia].
  unfold console, effect, modify, bind, reconnect, throw.
  by rewrite !record_record.
Qed.

Lemma on_error_settles id s err w :
  heap w !! id = Some s ->
  on_error id err w =
    (Ret tt,
     set_heap (<[id := settle (Rejected err) s]> (heap w))
       (record [Console c_log (log_socket_error err (raceSocketUrl s));
                SessionEmit id (ev_socket_error err)] w)).
Proof.
  intros Hs. unfold on_error.
  erewrite bind_Ret; [| unfold this_; by rewrite Hs].
  unfold console, emit, effect, modify, bind. cbn.
  unfold reject, update_this, modify. cbn.
  by rewrite (alter_insert _ _ _ _ Hs), record_record.
Qed.

(** A frame changes neither the client nor any session: [handleMessage]
    only adds to the trace. *)
Lemma on_message_records id data w :
  exists new, (on_message id data w).2 = record new w.
Proof.
  unfold on_message, emit, effect, modify, bind. cbn.
  destruct (JSON_parse data) as [message |] eqn:Hp.
  - rewrite (handleMessage_handled _ _ _ _ Hp).
    destruct (handled id message) as [[| | |] new]; cbn;
      rewrite record_record; eauto.
  - rewrite (handleMessage_undecoded _ _ _ Hp). cbn. eauto.
Qed.

Lemma joined_settle p s :
  joined (settle p s) = match joined s with Pending => p | q => q end.
Proof. unfold settle. destruct (joined s) eqn:E; cbn; by rewrite ?E. Qed.

Lemma escapes_world {A} (r : Outcome A * World) : (escapes r).2 = r.2.
Proof. by destruct r as [[| | |] ?]. Qed.

Lemma deliver_joined id s j ev w :
  heap w !! id = Some s ->
  joined <$> heap (deliver j ev w).2 !! id =
    Some (if decide (j = id) then settle_on ev s else joined s).
Proof.
  intros Hs. unfold deliver.
  destruct (heap w !! j) as [sj |] eqn:Hj.
  2:{ cbn. rewrite Hs. cbn. case_decide; [| done]. subst. congruence. }
  assert (Hlt : (j < length (heap w))%nat) by by eapply lookup_lt_Some.
  rewrite escapes_world.
  destruct ev as [| data | code reason | err]; cbn [listener].
  - rewrite (on_open_flush _ _ _ Hj). cbn [snd heap set_heap record].
    case_decide as Hd.
    + subst j. rewrite list_lookup_insert_eq by done. cbn.
      assert (sj = s) as -> by congruence.
      cbn [joined set_messageQueue set_ready]. rewrite joined_settle.
      unfold settle_on. by destruct (joined s).
    + rewrite list_lookup_insert_ne by done. by rewrite Hs.
  - destruct (on_message_records j data w) as [new ->]. cbn. rewrite Hs. cbn.
    case_decide; [| done]. unfold settle_on. by destruct (joined s).
  - destruct (Z.ltb_spec 1000 code).
    + rewrite on_close_abnormal by done. cbn. rewrite Hs. cbn.
      case_decide; [| done]. unfold settle_on. by destruct (joined s).
    + rewrite on_close_normal by done. cbn. rewrite Hs. cbn.
      case_decide; [| done]. unfold settle_on. by destruct (joined s).
  - rewrite (on_error_settles _ _ _ _ Hj). cbn [snd heap set_heap record].
    case_decide as Hd.
    + subst j. rewrite list_lookup_insert_eq by done. cbn.
      assert (sj = s) as -> by congruence.
      cbn [joined set_messageQueue set_ready]. rewrite joined_settle.
      unfold settle_on. by destruct (joined s).
    + rewrite list_lookup_insert_ne by done. by rewrite Hs.
Qed.

(** ** Closure of a socket *)

Lemma deliver_close id s code reason w :
  heap w !! id = Some s ->
  deliver id (sock_close code reason) w =
    if 1000 <? code
    then (Uncaught (TypeError "socket.reconnect is not a function"),
          record (closed_abnormally id code reason) w)
    else (Ret tt, record (closed_normally id code reason) w).
Proof.
  intros Hs. unfold deliver. rewrite Hs. cbn [listener].
  destruct (Z.ltb_spec 1000 code).
  - by rewrite on_close_abnormal.
  - by rewrite on_close_normal.
Qed.

(** C1. Closure and reconnection.  When the socket of a session closes with
    a code of at most 1000, the listeners return and nothing is attempted.
    When it closes with a code above 1000, the listener of [joinRaceRoom]
    logs that it reconnects and calls [socket.reconnect()], a method that
    the session does not have: the call throws out of the listener, no
    socket is opened and nothing is sent. *)
Theorem abnormal_close_throws_without_reconnecting
    (id : nat) (s : WebSocketClient) (code : Z) (reason : string) (w : World) :
  heap w !! id = Some s ->
  exists o w1,
    deliver id (sock_close code reason) w = (o, w1) /\
    connections (trace w1) = connections (trace w) /\
    client w1 = client w /\ heap w1 = heap w /\
    (1000 < code ->
       o = Uncaught (TypeError "socket.reconnect is not a function") /\
       trace w1 = trace w ++ closed_abnormally id code reason) /\
    (code <= 1000 ->
       o = Ret tt /\ trace w1 = trace w ++ closed_normally id code reason).
Proof.
  intros Hs. rewrite (deliver_close _ _ _ _ _ Hs).
  destruct (Z.ltb_spec 1000 code); eexists _, _; (split; [reflexivity |]);
    cbn [trace record client heap]; unfold connections;
    rewrite omap_app, app_nil_r; repeat split; try done; lia.
Qed.

Lemma network_calls_fetch u i es :
  network_calls (Fetch u i :: es) = (u, i) :: network_calls es.
Proof. done. Qed.

Lemma connections_fetch u i es : connections (Fetch u i :: es) = connections es.
Proof. done. Qed.

Lemma connections_app es1 es2 :
  connections (es1 ++ es2) = connections es1 ++ connections es2.
Proof. apply omap_app. Qed.

(** ** The credential *)

Lemma fetch_responds url init dt r rest w :
  net w = (dt, Responds r) :: rest ->
  fetch url init w = (Ret r, answered (Fetch url init) dt rest w).
Proof. intros H. unfold fetch. cbn. by rewrite H. Qed.

Lemma fetch_rejects url init dt e rest w :
  net w = (dt, Rejects e) :: rest ->
  fetch url init w = (Throw e, answered (Fetch url init) dt rest w).
Proof. intros H. unfold fetch. cbn. by rewrite H. Qed.

Lemma fetch_unanswered url init w :
  net w = [] -> fetch url init w = (Blocked, record [Fetch url init] w).
Proof. intros H. unfold fetch. cbn. by rewrite H. Qed.

(** A call of [fetch] adds itself to the trace and changes neither the
    client nor the sessions. *)
Lemma fetch_frame url init w :
  trace (fetch url init w).2 = trace w ++ [Fetch url init] /\
  client (fetch url init w).2 = client w /\
  heap (fetch url init w).2 = heap w.
Proof.
  unfold fetch. cbn. destruct (net w) as [| [dt [e | r]] rest]; by cbn.
Qed.

Lemma authorize_granted dt r rest cred w :
  net w = (dt, Responds r) :: rest -> ok r = true ->
  json_Credentials (resp_body r) = Some cred ->
  authorize w = (Ret true, authorized cred dt rest w).
Proof.
  intros Hn Hok Hj. unfold authorize, this_client, bind.
  rewrite (fetch_responds _ _ _ _ _ _ Hn), Hok, Hj. by cbn.
Qed.

Lemma authorize_undecoded dt r rest w :
  net w = (dt, Responds r) :: rest -> ok r = true ->
  json_Credentials (resp_body r) = None ->
  authorize w = (Throw (SyntaxError "Response.json"),
                 answered (exchange (client w)) dt rest w).
Proof.
  intros Hn Hok Hj. unfold authorize, this_client, bind.
  rewrite (fetch_responds _ _ _ _ _ _ Hn), Hok, Hj. by cbn.
Qed.

Lemma authorize_refused dt r rest w :
  net w = (dt, Responds r) :: rest -> ok r = false ->
  authorize w =
    (Ret false,
     record [ClientEmit (auth_error (resp_statusText r))]
       (answered (exchange (client w)) dt rest w)).
Proof.
  intros Hn Hok. unfold authorize, this_client, bind.
  rewrite (fetch_responds _ _ _ _ _ _ Hn), Hok. by cbn.
Qed.

Lemma authorize_rejected dt e rest w :
  net w = (dt, Rejects e) :: rest ->
  authorize w = (Throw e, answered (exchange (client w)) dt rest w).
Proof.
  intros Hn. unfold authorize, this_client, bind.
  by rewrite (fetch_rejects _ _ _ _ _ _ Hn).
Qed.

Lemma authorize_unanswered w :
  net w = [] -> authorize w = (Blocked, record [exchange (client w)] w).
Proof.
  intros Hn. unfold authorize, this_client, bind.
  by rewrite (fetch_unanswered _ _ _ Hn).
Qed.

(** Whatever the endpoint answers, [authorize] calls it once, touches no
    session, no entry of the registry and no entry of the cache. *)
Lemma authorize_frame w :
  (exists rest, trace (authorize w).2 = trace w ++ exchange (client w) :: rest /\
                network_calls rest = [] /\ connections rest = []) /\
  heap (authorize w).2 = heap w /\
  sockets (client (authorize w).2) = sockets (client w) /\
  raceDetailsCache (client (authorize w).2) = raceDetailsCache (client w) /\
  wire (authorize w).2 = wire w.
Proof.
  destruct (net w) as [| [dt [e | r]] rest] eqn:Hn.
  - rewrite (authorize_unanswered _ Hn). cbn. eauto 10.
  - rewrite (authorize_rejected _ _ _ _ Hn). cbn. eauto 10.
  - destruct (ok r) eqn:Hok.
    + destruct (json_Credentials (resp_body r)) as [cred |] eqn:Hj.
      * rewrite (authorize_granted _ _ _ _ _ Hn Hok Hj). cbn. eauto 10.
      * rewrite (authorize_undecoded _ _ _ _ Hn Hok Hj). cbn. eauto 10.
    + rewrite (authorize_refused _ _ _ _ Hn Hok). cbn.
      repeat split; try done.
      exists [ClientEmit (auth_error (resp_statusText r))].
      by rewrite <- app_assoc.
Qed.

Lemma refresh_if_expired_valid w :
  now w < authExpireTime (client w) -> refresh_if_expired w = (Ret tt, w).
Proof.
  intros H. unfold refresh_if_expired, this_client, Date_now, bind.
  destruct (Z.leb_spec (authExpireTime (client w)) (now w)); [lia | done].
Qed.

Lemma refresh_if_expired_expired w :
  authExpireTime (client w) <= now w ->
  refresh_if_expired w =
    (authorized <- authorize ;;
     if negb authorized then throw (Error "Unable to refresh access_token!")
     else ret tt) w.
Proof.
  intros H. unfold refresh_if_expired at 1, this_client, Date_now, bind at 1 2.
  destruct (Z.leb_spec (authExpireTime (client w)) (now w)); [done | lia].
Qed.

Lemma refresh_if_expired_frame w :
  (exists new, trace (refresh_if_expired w).2 = trace w ++ new /\
               connections new = [] /\
               network_calls new =
                 if authExpireTime (client w) <=? now w
                 then [("https://racetime.gg/o/token", token_request (client w))]
                 else []) /\
  heap (refresh_if_expired w).2 = heap w /\
  sockets (client (refresh_if_expired w).2) = sockets (client w) /\
  raceDetailsCache (client (refresh_if_expired w).2) = raceDetailsCache (client w) /\
  wire (refresh_if_expired w).2 = wire w.
Proof.
  destruct (Z.leb_spec (authExpireTime (client w)) (now w)) as [He | Hv].
  - rewrite (refresh_if_expired_expired _ He). unfold bind.
    destruct (authorize_frame w) as ((rest & Ht & Hn & Hc) & Hh & Hs & Hr & Hw).
    destruct (authorize w) as [[[|] | e | | e] w1]; cbn in *;
      (split; [| done]); exists (exchange (client w) :: rest);
      unfold exchange; by rewrite network_calls_fetch, connections_fetch, Hn.
  - rewrite (refresh_if_expired_valid _ Hv). cbn.
    split; [exists []; by rewrite app_nil_r | done].
Qed.

Lemma authenticatedFetch_refused url init e w w1 :
  refresh_if_expired w = (Throw e, w1) ->
  authenticatedFetch url init w = (Throw e, w1).
Proof. intros H. unfold authenticatedFetch. by apply bind_Throw. Qed.

Lemma joinRaceRoom_refused roomUrl e w w1 :
  sockets (client w) !! roomUrl = None ->
  refresh_if_expired w = (Throw e, w1) ->
  joinRaceRoom roomUrl w = (Throw e, w1).
Proof.
  intros Hs H. unfold joinRaceRoom, this_client, bind at 1. rewrite Hs.
  by apply bind_Throw.
Qed.

(** Where the client has a credential whenever its expiry instant has not
    come (as it is from the constructor on, the expiry instant being set
    only together with a credential), a check that passes leaves a
    credential. *)
Lemma refresh_if_expired_credential w w1 :
  (now w < authExpireTime (client w) -> is_Some (auth (client w))) ->
  refresh_if_expired w = (Ret tt, w1) ->
  is_Some (auth (client w1)).
Proof.
  intros Hinv. destruct (Z.leb_spec (authExpireTime (client w)) (now w)) as [He | Hv].
  - rewrite (refresh_if_expired_expired _ He). unfold bind.
    destruct (net w) as [| [dt [e | r]] rest] eqn:Hn.
    + by rewrite (authorize_unanswered _ Hn).
    + by rewrite (authorize_rejected _ _ _ _ Hn).
    + destruct (ok r) eqn:Hok.
      * destruct (json_Credentials (resp_body r)) as [cred |] eqn:Hj.
        -- rewrite (authorize_granted _ _ _ _ _ Hn Hok Hj). cbn.
           intros [= <-]. by eexists.
        -- by rewrite (authorize_undecoded _ _ _ _ Hn Hok Hj).
      * by rewrite (authorize_refused _ _ _ _ Hn Hok).
  - rewrite (refresh_if_expired_valid _ Hv). intros [= <-]. auto.
Qed.


(** ** The cache of race snapshots *)

Lemma authenticatedFetch_checked url init cred w w1 :
  refresh_if_expired w = (Ret tt, w1) -> auth (client w1) = Some cred ->
  authenticatedFetch url init w = fetch url (with_authorization cred init) w1.
Proof.
  intros H Ha. unfold authenticatedFetch.
  erewrite bind_Ret; [| exact H]. unfold this_client, bind. by rewrite Ha.
Qed.

Lemma cached_fresh raceUrl w : cached raceUrl w = (Ret (fresh raceUrl w), w).
Proof.
  unfold cached, fresh, this_client, Date_now, bind.
  destruct (raceDetailsCache (client w) !! raceUrl) as [d |]; [| done].
  by destruct (last_updated d + 1000 * 30 >? now w).
Qed.

Lemma fresh_Some raceUrl w d :
  fresh raceUrl w = Some d <->
  raceDetailsCache (client w) !! raceUrl = Some d /\ now w - last_updated d < 30000.
Proof.
  unfold fresh. destruct (raceDetailsCache (client w) !! raceUrl) as [d' |].
  - destruct (Z.gtb_spec (last_updated d' + 1000 * 30) (now w)); split.
    + intros [= ->]. split; [done | lia].
    + by intros [[= ->] _].
    + done.
    + intros [[= ->] ?]. lia.
  - split; [done | by intros [? _]].
Qed.

Lemma fresh_None raceUrl w :
  fresh raceUrl w = None <->
  forall d, raceDetailsCache (client w) !! raceUrl = Some d ->
            30000 <= now w - last_updated d.
Proof.
  unfold fresh. destruct (raceDetailsCache (client w) !! raceUrl) as [d' |].
  - destruct (Z.gtb_spec (last_updated d' + 1000 * 30) (now w)); split.
    + done.
    + intros Hd. specialize (Hd d' eq_refl). lia.
    + intros _ d [= ->]. lia.
    + done.
  - split; [by intros _ d | done].
Qed.

Lemma fetchRaceData_hit raceUrl d w :
  fresh raceUrl w = Some d -> fetchRaceData raceUrl w = (Ret (Some d), w).
Proof.
  intros H. unfold fetchRaceData.
  erewrite bind_Ret; [| apply cached_fresh]. by rewrite H.
Qed.

Lemma fetchRaceData_miss raceUrl w :
  fresh raceUrl w = None ->
  fetchRaceData raceUrl w =
    match authenticatedFetch (data_endpoint raceUrl) None w with
    | (Ret r, w1) => received raceUrl r w1
    | (Throw e, w1) => (Throw e, w1)
    | (Blocked, w1) => (Blocked, w1)
    | (Uncaught e, w1) => (Uncaught e, w1)
    end.
Proof.
  intros H. unfold fetchRaceData.
  erewrite bind_Ret; [| apply cached_fresh]. rewrite H. unfold bind at 1.
  destruct (authenticatedFetch (data_endpoint raceUrl) None w)
    as [[r | e | | e] w1]; try done.
  unfold received, snapshot_of. destruct (ok r); [| done].
  unfold try_catch.
  destruct (Response_json (resp_body r)) as [value |].
  - destruct (holds_properties value); [done |].
    cbn. unfold console, effect, modify, bind, ret. cbn.
    by rewrite record_record.
  - cbn. unfold console, effect, modify, bind, ret. cbn.
    by rewrite record_record.
Qed.

Lemma shape_holds_properties value :
  RaceDetails_shape value = true -> holds_properties value = true.
Proof. by destruct value. Qed.

(** C8. Soft failures of a snapshot fetch.  When a get finds no fresh
    entry and its request is answered with a status that is not OK, the get
    returns null: it does not throw, and it stores nothing.  When the
    answer is OK and [json()] throws on its body, or gives [null] or a
    primitive value, on which [last_updated] cannot be set, the exception
    is logged with [console.error], the body is traced, and the get
    returns null.  When [json()] gives an object or an array, nothing
    checks its shape: whatever its members, the value is stamped, stored
    and returned, and nothing is logged. *)
Theorem fetchRaceData_soft_failure
    (raceUrl : string) (r : Response) (w w1 : World) :
  (forall d, raceDetailsCache (client w) !! raceUrl = Some d ->
             30000 <= now w - last_updated d) ->
  authenticatedFetch (data_endpoint raceUrl) None w = (Ret r, w1) ->
  (ok r = false -> fetchRaceData raceUrl w = (Ret None, w1)) /\
  (ok r = true -> Response_json (resp_body r) = None ->
     fetchRaceData raceUrl w =
       (Ret None,
        record [Console c_error (log_exception (SyntaxError "Response.json"));
                Console c_trace (log_text (resp_body r))] w1)) /\
  (forall value,
     ok r = true -> Response_json (resp_body r) = Some value ->
     holds_properties value = false ->
     fetchRaceData raceUrl w =
       (Ret None,
        record [Console c_error
                  (log_exception (set_property_error "last_updated" value));
                Console c_trace (log_text (resp_body r))] w1)) /\
  (forall value,
     ok r = true -> Response_json (resp_body r) = Some value ->
     holds_properties value = true ->
     fetchRaceData raceUrl w =
       (Ret (Some (set_last_updated (now w1) (as_RaceDetails value))),
        stored raceUrl (as_RaceDetails value) w1) /\
     trace (stored raceUrl (as_RaceDetails value) w1) = trace w1 /\
     raceDetailsCache (client (stored raceUrl (as_RaceDetails value) w1)) !! raceUrl =
       Some (set_last_updated (now w1) (as_RaceDetails value))) /\
  (forall value, RaceDetails_shape value = true -> holds_properties value = true).
Proof.
  intros Hstale Hf. apply fresh_None in Hstale.
  rewrite (fetchRaceData_miss _ _ Hstale), Hf. unfold received, snapshot_of.
  split; [| split; [| split; [| split]]].
  - by intros ->.
  - by intros -> ->.
  - by intros value -> -> ->.
  - intros value -> -> ->. split; [done |]. split; [done |].
    cbn. apply lookup_insert_eq.
  - apply shape_holds_properties.
Qed.

Lemma received_trace raceUrl r w :
  exists logs, trace (received raceUrl r w).2 = trace w ++ logs /\
               network_calls logs = [].
Proof.
  unfold received. destruct (ok r).
  - destruct (snapshot_of (resp_body r)); cbn.
    + by eexists.
    + exists []. by rewrite app_nil_r.
  - exists []. by rewrite app_nil_r.
Qed.

(** A call of [authenticatedFetch] that returns has called the network. *)
Lemma authenticatedFetch_calls url init r w w1 :
  authenticatedFetch url init w = (Ret r, w1) ->
  exists new, trace w1 = trace w ++ new /\ network_calls new <> [].
Proof.
  unfold authenticatedFetch, bind at 1.
  destruct (refresh_if_expired_frame w) as ((new & Ht & _) & _).
  destruct (refresh_if_expired w) as [[[] | e | | e] w0]; try discriminate.
  cbn [snd] in Ht. unfold this_client, bind.
  destruct (auth (client w0)) as [cred |]; [| discriminate].
  intros Hf.
  pose proof (fetch_frame url (with_authorization cred init) w0) as (Hc & _).
  unfold with_authorization in Hc. rewrite Hf in Hc. cbn [snd] in Hc.
  eexists. split; [by rewrite Hc, Ht, <- app_assoc |].
  unfold network_calls. rewrite omap_app. by destruct (omap _ new).
Qed.

(** C4. The cache of snapshots.  A get that finds an entry for the race
    with [now - last_updated] below 30 seconds returns that entry and does
    nothing else: no call of the network, no change of state.  Otherwise
    the entry, if any, is ignored: a get that returns has called the
    network.  The credential check runs first.  If
    the check throws, the get throws the same and no snapshot is asked for.
    If the check passes, exactly one request for the snapshot is sent and
    no other call follows it; when the answer is OK and its body gives a
    snapshot, the snapshot is stored and returned with [last_updated] equal
    to the instant of the answer, and a get that follows at once returns
    it from the cache without a call.  A result that fails is not stored:
    when the answer is not OK, or its body gives no snapshot, the get
    returns null, and when the request is rejected the get throws; in
    both cases the cache is as it was before the get. *)
Theorem fetchRaceData_cache (raceUrl : string) (w : World) :
  (forall d,
     raceDetailsCache (client w) !! raceUrl = Some d ->
     now w - last_updated d < 30000 ->
     fetchRaceData raceUrl w = (Ret (Some d), w)) /\
  ((forall d, raceDetailsCache (client w) !! raceUrl = Some d ->
              30000 <= now w - last_updated d) ->
   (forall o w1,
      fetchRaceData raceUrl w = (Ret o, w1) ->
      exists new, trace w1 = trace w ++ new /\ network_calls new <> []) /\
   (forall e w1,
      refresh_if_expired w = (Throw e, w1) ->
      fetchRaceData raceUrl w = (Throw e, w1)) /\
   (forall w1 cred,
      refresh_if_expired w = (Ret tt, w1) -> auth (client w1) = Some cred ->
      (exists logs,
         trace (fetchRaceData raceUrl w).2
           = trace w1 ++ snapshot_request raceUrl cred :: logs /\
         network_calls logs = []) /\
      (forall dt r rest d,
         net w1 = (dt, Responds r) :: rest -> ok r = true ->
         snapshot_of (resp_body r) = inr d ->
         exists w2,
           fetchRaceData raceUrl w = (Ret (Some (set_last_updated (now w2) d)), w2) /\
           now w2 = now w1 + Z.of_N dt /\
           raceDetailsCache (client w2) !! raceUrl
             = Some (set_last_updated (now w2) d) /\
           fetchRaceData raceUrl w2
             = (Ret (Some (set_last_updated (now w2) d)), w2)) /\
      (forall dt r rest,
         net w1 = (dt, Responds r) :: rest ->
         ok r = false \/ (exists e, snapshot_of (resp_body r) = inl e) ->
         exists w2,
           fetchRaceData raceUrl w = (Ret None, w2) /\
           raceDetailsCache (client w2) = raceDetailsCache (client w)) /\
      (forall dt e rest,
         net w1 = (dt, Rejects e) :: rest ->
         exists w2,
           fetchRaceData raceUrl w = (Throw e, w2) /\
           raceDetailsCache (client w2) = raceDetailsCache (client w)))).
Proof.
  split.
  - intros d Hd Hf. apply fetchRaceData_hit. by apply fresh_Some.
  - intros Hstale. apply fresh_None in Hstale. split; [| split].
    + intros o w1. rewrite (fetchRaceData_miss _ _ Hstale).
      destruct (authenticatedFetch (data_endpoint raceUrl) None w)
        as [[r | e | | e] w0] eqn:Hf; try discriminate.
      apply authenticatedFetch_calls in Hf as (new & Ht & Hn).
      destruct (received_trace raceUrl r w0) as (logs & Hl & _).
      intros Hrec. rewrite Hrec in Hl. cbn [snd] in Hl.
      exists (new ++ logs). split; [by rewrite Hl, Ht, <- app_assoc |].
      unfold network_calls in *. rewrite omap_app. by destruct (omap _ new).
    + intros e w1 Hr. rewrite (fetchRaceData_miss _ _ Hstale).
      by rewrite (authenticatedFetch_refused _ _ _ _ _ Hr).
    + intros w1 cred Hr Ha.
      assert (Hcache : raceDetailsCache (client w1) = raceDetailsCache (client w)).
      { destruct (refresh_if_expired_frame w) as (_ & _ & _ & Hc & _).
        by rewrite Hr in Hc. }
      split; [| split; [| split]].
      * rewrite (fetchRaceData_miss _ _ Hstale).
        rewrite (authenticatedFetch_checked _ _ _ _ _ Hr Ha).
        pose proof (fetch_frame (data_endpoint raceUrl)
                      (with_authorization cred None) w1) as (Ht & _).
        destruct (fetch (data_endpoint raceUrl) (with_authorization cred None) w1)
          as [[r | e | | e] w2]; cbn in Ht |- *;
          try (exists []; by rewrite Ht).
        destruct (received_trace raceUrl r w2) as (logs & Hl & Hn).
        exists logs. by rewrite Hl, Ht, <- app_assoc.
      * intros dt r rest d Hn Hok Hj.
        rewrite (fetchRaceData_miss _ _ Hstale).
        rewrite (authenticatedFetch_checked _ _ _ _ _ Hr Ha).
        rewrite (fetch_responds _ _ _ _ _ _ Hn).
        unfold received. rewrite Hok, Hj.
        exists (stored raceUrl d
                  (answered (Fetch (data_endpoint raceUrl)
                     (with_authorization cred None)) dt rest w1)).
        split; [reflexivity |]. split; [done |].
        assert (Hc : raceDetailsCache
                       (client (stored raceUrl d
                          (answered (Fetch (data_endpoint raceUrl)
                             (with_authorization cred None)) dt rest w1))) !! raceUrl
                     = Some (set_last_updated (now w1 + Z.of_N dt) d)).
        { cbn. apply lookup_insert_eq. }
        split; [exact Hc |].
        apply fetchRaceData_hit, fresh_Some. split; [exact Hc |].
        cbn. lia.
      * intros dt r rest Hn Hfail.
        rewrite (fetchRaceData_miss _ _ Hstale).
        rewrite (authenticatedFetch_checked _ _ _ _ _ Hr Ha).
        rewrite (fetch_responds _ _ _ _ _ _ Hn).
        unfold received. destruct Hfail as [-> | [e ->]].
        -- by eexists.
        -- destruct (ok r); by eexists.
      * intros dt e rest Hn.
        rewrite (fetchRaceData_miss _ _ Hstale).
        rewrite (authenticatedFetch_checked _ _ _ _ _ Hr Ha).
        rewrite (fetch_rejects _ _ _ _ _ _ Hn). by eexists.
Qed.

(** ** Joining a room *)

Lemma joinRaceRoom_existing roomUrl id w :
  sockets (client w) !! roomUrl = Some id ->
  joinRaceRoom roomUrl w = (Ret resolved_true, w).
Proof. intros Hs. unfold joinRaceRoom, this_client, bind. by rewrite Hs. Qed.

Lemma joinRaceRoom_new roomUrl cred w w1 :
  sockets (client w) !! roomUrl = None ->
  refresh_if_expired w = (Ret tt, w1) -> auth (client w1) = Some cred ->
  joinRaceRoom roomUrl w = (Ret (of_session (length (heap w1))), opened roomUrl cred w1).
Proof.
  intros Hs Hr Ha. unfold joinRaceRoom, this_client, bind at 1. rewrite Hs.
  erewrite bind_Ret; [| exact Hr].
  unfold new_WebSocketClient, get, bind at 1 2. rewrite Ha. by cbn.
Qed.

Lemma settled_fulfilled id s events w :
  heap w !! id = Some s -> joined s = Fulfilled ->
  settled id events w = (Ret true, set_wire events w).
Proof. intros Hs Hj. destruct events; cbn; by rewrite Hs; cbn; rewrite Hj. Qed.

Lemma settled_rejected id s err events w :
  heap w !! id = Some s -> joined s = Rejected err ->
  settled id events w = (Throw err, set_wire events w).
Proof. intros Hs Hj. destruct events; cbn; by rewrite Hs; cbn; rewrite Hj. Qed.

(** C7. [joinRaceRoom] and the registry.  For a room that has a session in
    the mapping, the call returns a promise already resolved to true and
    changes nothing: no session is made and no socket is opened.  For a
    room without a session the credential check runs first; if it throws,
    the call throws the same and no session is made; if it passes, exactly
    one session is made, not ready and with an empty queue, one socket is
    opened to the room, the mapping gets the room, and a second call for
    the room returns true without doing anything.  The promise of the new
    session is settled by the first ready or socket error of that session
    and by nothing else: the open of its socket fulfils a pending promise,
    an error of its socket rejects a pending promise with that error, and
    no report of any socket changes a settled promise. *)
Theorem joinRaceRoom_idempotent (roomUrl : string) (w : World) :
  (forall id,
     sockets (client w) !! roomUrl = Some id ->
     joinRaceRoom roomUrl w = (Ret resolved_true, w) /\
     await resolved_true w = (Ret true, w)) /\
  (sockets (client w) !! roomUrl = None ->
   (forall e w1,
      refresh_if_expired w = (Throw e, w1) ->
      joinRaceRoom roomUrl w = (Throw e, w1) /\
      heap w1 = heap w /\
      sockets (client w1) = sockets (client w) /\
      connections (trace w1) = connections (trace w)) /\
   (forall w1 cred,
      refresh_if_expired w = (Ret tt, w1) -> auth (client w1) = Some cred ->
      exists w2,
        joinRaceRoom roomUrl w = (Ret (of_session (length (heap w))), w2) /\
        heap w2 = heap w ++ [new_session roomUrl] /\
        sockets (client w2) = <[roomUrl := length (heap w)]> (sockets (client w)) /\
        connections (trace w2) =
          connections (trace w) ++
            [(length (heap w), "wss://racetime.gg" +:+ roomUrl)] /\
        joinRaceRoom roomUrl w2 = (Ret resolved_true, w2))) /\
  (forall id s,
     heap w !! id = Some s ->
     (forall j ev,
        joined <$> heap (deliver j ev w).2 !! id =
          Some (if decide (j = id)
                then match joined s, ev with
                     | Pending, sock_open => Fulfilled
                     | Pending, sock_error err => Rejected err
                     | p, _ => p
                     end
                else joined s)) /\
     (forall events,
        joined s = Fulfilled ->
        await (of_session id) (set_wire events w) = (Ret true, set_wire events w)) /\
     (forall events err,
        joined s = Rejected err ->
        await (of_session id) (set_wire events w) = (Throw err, set_wire events w))).
Proof.
  split; [| split].
  - intros id Hs. split; [by eapply joinRaceRoom_existing | done].
  - intros Hs. split.
    + intros e w1 Hr. split; [by apply joinRaceRoom_refused |].
      destruct (refresh_if_expired_frame w) as ((new & Ht & Hc & _) & Hh & Hk & _).
      rewrite Hr in Ht, Hh, Hk. cbn [snd] in Ht, Hh, Hk.
      by rewrite Ht, connections_app, Hc, app_nil_r.
    + intros w1 cred Hr Ha.
      destruct (refresh_if_expired_frame w) as ((new & Ht & Hc & _) & Hh & Hk & _).
      rewrite Hr in Ht, Hh, Hk. cbn [snd] in Ht, Hh, Hk.
      exists (opened roomUrl cred w1).
      rewrite <- Hh. split; [by apply joinRaceRoom_new |].
      split; [done |]. split; [unfold opened; cbn; by rewrite Hk |]. split.
      * unfold opened. cbn [trace set_client set_heap record].
        by rewrite Ht, !connections_app, Hc, app_nil_r.
      * eapply joinRaceRoom_existing. unfold opened.
        cbn [client set_client sockets set_sockets]. apply lookup_insert_eq.
  - intros id s Hs. split; [| split].
    + intros j ev. apply (deliver_joined _ _ _ _ _ Hs).
    + intros events Hj. unfold await, get, bind. cbn [wire set_wire].
      by rewrite (settled_fulfilled id s).
    + intros events err Hj. unfold await, get, bind. cbn [wire set_wire].
      by rewrite (settled_rejected id s err).
Qed.

(** ** Cancelling a race *)

Lemma deliver_client j ev w : client (deliver j ev w).2 = client w.
Proof.
  unfold deliver. destruct (heap w !! j) as [sj |] eqn:Hj; [| done].
  rewrite escapes_world. destruct ev as [| data | code reason | err]; cbn [listener].
  - by rewrite (on_open_flush _ _ _ Hj).
  - by destruct (on_message_records j data w) as [new ->].
  - destruct (Z.ltb_spec 1000 code).
    + by rewrite on_close_abnormal.
    + by rewrite on_close_normal.
  - by rewrite (on_error_settles _ _ _ _ Hj).
Qed.

Lemma settled_client id events : forall w, client (settled id events w).2 = client w.
Proof.
  induction events as [| [[dt i] ev] rest IH]; intros w; cbn.
  - by destruct (joined <$> heap w !! id) as [[| |] |].
  - destruct (joined <$> heap w !! id) as [[| |] |]; try done.
    pose proof (deliver_client i ev (advance dt (set_wire rest w))) as Hd.
    destruct (deliver i ev (advance dt (set_wire rest w))) as [[[] | e | | e] w1];
      cbn in Hd |- *; try done.
    by rewrite IH.
Qed.

Lemma await_client joining w : client (await joining w).2 = client w.
Proof.
  destruct joining; [done |]. unfold await, get, bind. apply settled_client.
Qed.

Lemma settled_true id events : forall w b w',
  settled id events w = (Ret b, w') -> b = true.
Proof.
  induction events as [| [[dt i] ev] rest IH]; intros w b w'; cbn.
  - by destruct (joined <$> heap w !! id) as [[| |] |]; intros [=].
  - destruct (joined <$> heap w !! id) as [[| |] |]; try by intros [=].
    destruct (deliver i ev (advance dt (set_wire rest w)))
      as [[[] | e | | e] w1]; try by intros [=].
    apply IH.
Qed.

Lemma await_true joining w b w' : await joining w = (Ret b, w') -> b = true.
Proof.
  destruct joining as [| id]; [by intros [=] |].
  unfold await, get, bind. apply settled_true.
Qed.

Lemma sendMessage_client id message w : client (sendMessage id message w).2 = client w.
Proof.
  unfold sendMessage, this_, bind. destruct (heap w !! id) as [s |]; [| done].
  by destruct (ready s).
Qed.

Lemma joinRaceRoom_cache roomUrl w :
  raceDetailsCache (client (joinRaceRoom roomUrl w).2) = raceDetailsCache (client w).
Proof.
  unfold joinRaceRoom, this_client, bind at 1.
  destruct (sockets (client w) !! roomUrl); [done |].
  destruct (refresh_if_expired_frame w) as (_ & _ & _ & Hc & _).
  unfold bind at 1.
  destruct (refresh_if_expired w) as [[[] | e | | e] w1]; cbn [snd] in Hc; try done.
  unfold new_WebSocketClient, get, bind at 1 2.
  by destruct (auth (client w1)).
Qed.

Lemma fetchRaceData_returns_cached raceUrl d w w1 :
  fetchRaceData raceUrl w = (Ret (Some d), w1) ->
  raceDetailsCache (client w1) !! raceUrl = Some d.
Proof.
  intros H. destruct (fresh raceUrl w) as [d' |] eqn:Hf.
  - rewrite (fetchRaceData_hit _ _ _ Hf) in H. injection H as -> ->.
    by apply fresh_Some in Hf as [? _].
  - rewrite (fetchRaceData_miss _ _ Hf) in H.
    destruct (authenticatedFetch (data_endpoint raceUrl) None w)
      as [[r | e | | e] w2]; try discriminate H.
    unfold received in H. destruct (ok r); [| discriminate H].
    destruct (snapshot_of (resp_body r)) as [e0 | d']; [discriminate H |].
    injection H as <- <-. cbn. apply lookup_insert_eq.
Qed.



(** ** Closure and the registry *)

(** C2. Closure and the registry.  A closure of the socket of a session,
    with a normal or an abnormal code, leaves the mapping from room URL to
    session as it is and leaves every session as it is, its queue of
    pending actions and its ready flag included: the closure unregisters
    nothing and drops nothing.  So a room that is registered stays mapped
    to its session, and the queue of that session holds what it held. *)
Theorem close_keeps_registry_and_queue
    (id : nat) (code : Z) (reason : string) (w : World) :
  sockets (client (deliver id (sock_close code reason) w).2) = sockets (client w) /\
  heap (deliver id (sock_close code reason) w).2 = heap w /\
  (forall roomUrl socket s,
     sockets (client w) !! roomUrl = Some socket ->
     heap w !! socket = Some s ->
     sockets (client (deliver id (sock_close code reason) w).2) !! roomUrl =
       Some socket /\
     messageQueue <$> heap (deliver id (sock_close code reason) w).2 !! socket =
       Some (messageQueue s)).
Proof.
  assert (Hclose :
    sockets (client (deliver id (sock_close code reason) w).2) = sockets (client w) /\
    heap (deliver id (sock_close code reason) w).2 = heap w).
  { destruct (heap w !! id) as [s |] eqn:Hs.
    - rewrite (deliver_close _ _ _ _ _ Hs). by destruct (1000 <? code).
    - unfold deliver. by rewrite Hs. }
  destruct Hclose as [Hsockets Hheap]. split; [done |]. split; [done |].
  intros roomUrl socket s Hroom Hs. rewrite Hsockets, Hheap, Hs. done.
Qed.

End Properties.

(** * The properties on the sample worlds *)

(** Two frames of the specification's scenarios: a chat.message frame gives
    one chat-message event that carries the frame; a frame of an unknown
    kind throws and gives no event. *)
Example chat_message_frame :
  handleMessage (host := sample_host) 0 "a chat.message frame" w_joined =
    (Ret tt,
     record [SessionEmit 0 (ev_chat_message (sample_frame "chat.message"))] w_joined).
Proof. reflexivity. Qed.

Example bogus_kind_frame :
  handleMessage (host := sample_host) 0 "a bogus.kind frame" w_joined =
    (Throw (UnknownMessageType (Some (JStr "bogus.kind"))), w_joined).
Proof. reflexivity. Qed.

(** C1, at the close code 1006 on the joined room: the listener throws
    [socket.reconnect is not a function] and the trace shows the one socket
    that [joinRaceRoom] opened. *)
Lemma abnormal_close_witness :
  exists w1,
    deliver (host := sample_host) 0 (sock_close 1006 "") w_joined =
      (Uncaught (TypeError "socket.reconnect is not a function"), w1) /\
    connections (trace w1) = [(0%nat, "wss://racetime.gg/ws/o/bot/xyz")] /\
    heap w1 = heap w_joined.
Proof.
  destruct (abnormal_close_throws_without_reconnecting (host := sample_host)
              0 (new_session room) 1006 "" w_joined eq_refl)
    as (o & w1 & Hd & Hc & _ & Hh & Habnormal & _).
  destruct Habnormal as [-> _]; [reflexivity |].
  exists w1. split; [exact Hd |]. split; [| exact Hh].
  rewrite Hc. reflexivity.
Defined.

(** C2 as stated fails: the room is joined, a command is queued, and the
    socket closes with the normal code 1000; the room is still in the
    mapping and the command is still in the queue. *)
Lemma normal_close_keeps_session :
  sockets (client w_queued) !! room = Some 0%nat /\
  (deliver (host := sample_host) 0 (sock_close 1000 "") w_queued).1 = Ret tt /\
  sockets (client (deliver (host := sample_host) 0 (sock_close 1000 "") w_queued).2)
    !! room = Some 0%nat /\
  messageQueue <$>
    heap (deliver (host := sample_host) 0 (sock_close 1000 "") w_queued).2 !! 0%nat
    = Some [cancel_command].
Proof. vm_compute. done. Qed.

(** C4 as stated fails when the credential has expired.  If the token
    endpoint refuses, the get throws and the only call of the network is
    the token exchange: no snapshot is asked for.  If the token endpoint
    grants, the get returns the snapshot after two calls of the network.
    And with a valid credential, two gets ten milliseconds apart that are
    both answered 404 store nothing and call the network twice. *)
Lemma snapshot_get_not_one_call :
  raceDetailsCache (client w_refused) !! race_url = None /\
  (fetchRaceData (host := sample_host) race_url w_refused).1
    = Throw (Error "Unable to refresh access_token!") /\
  network_calls (trace (fetchRaceData (host := sample_host) race_url w_refused).2)
    = [("https://racetime.gg/o/token", token_request new_client)] /\
  (fetchRaceData (host := sample_host) race_url w_granted).1 = Ret (Some snapshot) /\
  length (network_calls
            (trace (fetchRaceData (host := sample_host) race_url w_granted).2)) = 2%nat /\
  (fetchRaceData (host := sample_host) race_url w_not_found_twice).1 = Ret None /\
  (fetchRaceData (host := sample_host) race_url
     (fetchRaceData (host := sample_host) race_url w_not_found_twice).2).1 = Ret None /\
  now (fetchRaceData (host := sample_host) race_url
         (fetchRaceData (host := sample_host) race_url w_not_found_twice).2).2
    = now w_not_found_twice + 10 /\
  length (network_calls
            (trace (fetchRaceData (host := sample_host) race_url
                      (fetchRaceData (host := sample_host) race_url
                         w_not_found_twice).2).2)) = 2%nat.
Proof. vm_compute. done. Qed.

Lemma fetchRaceData_cache_witness :
  fetchRaceData (host := sample_host) race_url w_cached =
    (Ret (Some (set_last_updated 1699999990000 sample_race)), w_cached) /\
  (exists w2,
     fetchRaceData (host := sample_host) race_url w_served =
       (Ret (Some (set_last_updated (now w2) sample_race)), w2) /\
     now w2 = now w_served + Z.of_N 7 /\
     raceDetailsCache (client w2) !! race_url =
       Some (set_last_updated (now w2) sample_race) /\
     fetchRaceData (host := sample_host) race_url w2 =
       (Ret (Some (set_last_updated (now w2) sample_race)), w2)) /\
  (exists w2,
     fetchRaceData (host := sample_host) race_url w_not_found = (Ret None, w2) /\
     raceDetailsCache (client w2) = raceDetailsCache (client w_not_found)) /\
  (exists w2,
     fetchRaceData (host := sample_host) race_url w_unreachable_race =
       (Throw (HostError "fetch failed"), w2) /\
     raceDetailsCache (client w2) = raceDetailsCache (client w_unreachable_race)).
Proof.
  split; [| split; [| split]].
  - apply (proj1 (fetchRaceData_cache (host := sample_host) race_url w_cached)).
    + vm_compute. reflexivity.
    + vm_compute. reflexivity.
  - refine (proj1 (proj2 (proj2 (proj2 (proj2
              (fetchRaceData_cache (host := sample_host) race_url w_served) _))
              w_served sample_credentials eq_refl eq_refl))
              7%N (response 200 "OK" "a race") [] sample_race eq_refl eq_refl eq_refl).
    intros d Hd. vm_compute in Hd. discriminate Hd.
  - refine (proj1 (proj2 (proj2 (proj2 (proj2 (proj2
              (fetchRaceData_cache (host := sample_host) race_url w_not_found) _))
              w_not_found sample_credentials eq_refl eq_refl)))
              5%N (response 404 "Not Found" "") [] eq_refl (or_introl eq_refl)).
    intros d Hd. vm_compute in Hd. discriminate Hd.
  - refine (proj2 (proj2 (proj2 (proj2 (proj2 (proj2
              (fetchRaceData_cache (host := sample_host) race_url w_unreachable_race)
              _)) w_unreachable_race sample_credentials eq_refl eq_refl)))
              5%N (HostError "fetch failed") [] eq_refl).
    intros d Hd. vm_compute in Hd. discriminate Hd.
Defined.



Lemma sendMessage_queue_fifo_witness :
  exists w1 w2 s2,
    forEach [cancel_command; {| action := BEGIN; data := None |}]
      (sendMessage (host := sample_host) 0) w_joined = (Ret tt, w1) /\
    sent 0 (trace w1) = sent 0 (trace w_joined) /\
    on_open (host := sample_host) 0 w1 = (Ret tt, w2) /\
    sent 0 (trace w2) = sent 0 (trace w_joined) ++ ["cancel"; "begin"] /\
    heap w2 !! 0%nat = Some s2 /\ ready s2 = true /\ messageQueue s2 = [] /\
    forall later, exists w3,
      forEach later (sendMessage (host := sample_host) 0) w2 = (Ret tt, w3) /\
      sent 0 (trace w3) =
        sent 0 (trace w_joined) ++
        map (JSON_stringify (Host := sample_host))
          (messageQueue (new_session room) ++
           [cancel_command; {| action := BEGIN; data := None |}] ++ later).
Proof.
  destruct (sendMessage_queue_fifo (host := sample_host) 0 (new_session room)
              w_joined eq_refl) as (_ & _ & Hflush).
  exact (Hflush eq_refl [cancel_command; {| action := BEGIN; data := None |}]).
Defined.

(** C7 as stated fails when the credential has expired and the token
    endpoint refuses: for a room without a session, the call throws and
    makes no session. *)
Lemma join_refused_makes_no_session :
  sockets (client w_refused) !! room = None /\
  (joinRaceRoom (host := sample_host) room w_refused).1
    = Throw (Error "Unable to refresh access_token!") /\
  heap (joinRaceRoom (host := sample_host) room w_refused).2 = [] /\
  sockets (client (joinRaceRoom (host := sample_host) room w_refused).2) !! room = None /\
  connections (trace (joinRaceRoom (host := sample_host) room w_refused).2) = [].
Proof. vm_compute. done. Qed.

Lemma joinRaceRoom_idempotent_witness :
  joinRaceRoom (host := sample_host) room w_joined = (Ret resolved_true, w_joined) /\
  await (host := sample_host) resolved_true w_joined = (Ret true, w_joined).
Proof.
  apply (proj1 (joinRaceRoom_idempotent (host := sample_host) room w_joined) 0%nat).
  vm_compute. reflexivity.
Defined.

Lemma fetchRaceData_soft_failure_witness :
  fetchRaceData (host := sample_host) race_url w_not_found =
    (Ret None,
     answered (snapshot_request race_url sample_credentials) 5 [] w_not_found) /\
  fetchRaceData (host := sample_host) race_url w_undecoded =
    (Ret None,
     record [Console c_error (log_exception (SyntaxError "Response.json"));
             Console c_trace (log_text "<html>")]
       (answered (snapshot_request race_url sample_credentials) 5 [] w_undecoded)) /\
  fetchRaceData (host := sample_host) race_url w_null_body =
    (Ret None,
     record [Console c_error
               (log_exception
                  (TypeError "Cannot set properties of null (setting 'last_updated')"));
             Console c_trace (log_text "null")]
       (answered (snapshot_request race_url sample_credentials) 5 [] w_null_body)) /\
  fetchRaceData (host := sample_host) race_url w_served =
    (Ret (Some (set_last_updated 1700000000007 sample_race)),
     stored race_url sample_race
       (answered (snapshot_request race_url sample_credentials) 7 [] w_served)).
Proof.
  split; [| split; [| split]].
  - refine (proj1 (fetchRaceData_soft_failure (host := sample_host) race_url
                     (response 404 "Not Found" "") w_not_found _ _ _) _).
    + intros d Hd. vm_compute in Hd. discriminate Hd.
    + reflexivity.
    + reflexivity.
  - refine (proj1 (proj2 (fetchRaceData_soft_failure (host := sample_host) race_url
                     (response 200 "OK" "<html>") w_undecoded _ _ _)) _ _).
    + intros d Hd. vm_compute in Hd. discriminate Hd.
    + reflexivity.
    + reflexivity.
    + reflexivity.
  - refine (proj1 (proj2 (proj2 (fetchRaceData_soft_failure (host := sample_host)
                     race_url (response 200 "OK" "null") w_null_body _ _ _)))
              JNull _ _ _).
    + intros d Hd. vm_compute in Hd. discriminate Hd.
    + reflexivity.
    + reflexivity.
    + reflexivity.
    + reflexivity.
  - refine (proj1 (proj1 (proj2 (proj2 (proj2
              (fetchRaceData_soft_failure (host := sample_host)
                 race_url (response 200 "OK" "a race") w_served
                 (answered (snapshot_request race_url sample_credentials) 7 []
                    w_served) _ _))))
              sample_race_json _ _ _)).
    + intros d Hd. vm_compute in Hd. discriminate Hd.
    + reflexivity.
    + reflexivity.
    + reflexivity.
    + reflexivity.
Defined.

(** C8 as stated fails on an OK answer whose body is JSON of another
    shape: the body [{}] has no member of a snapshot, and the get does not
    return null: it returns the value, stores it under the race, and logs
    nothing. *)
Lemma unshaped_body_is_returned :
  ok (response 200 "OK" "{}") = true /\
  Response_json (Host := sample_host) "{}" = Some (JObj []) /\
  RaceDetails_shape (JObj []) = false /\
  (exists d,
     (fetchRaceData (host := sample_host) race_url w_unshaped).1 = Ret (Some d) /\
     raceDetailsCache
       (client (fetchRaceData (host := sample_host) race_url w_unshaped).2)
       !! race_url = Some d) /\
  trace (fetchRaceData (host := sample_host) race_url w_unshaped).2 =
    [snapshot_request race_url sample_credentials].
Proof.
  split; [reflexivity |]. split; [reflexivity |]. split; [reflexivity |].
  split; [| reflexivity]. eexists. split; vm_compute; reflexivity.
Qed.

Lemma chat_pin_frame_witness :
  exists new,
    (handleMessage (host := sample_host) 0 "a chat.pin frame" w_joined).2
      = record new w_joined /\
    (forall i m, SessionEmit i (ev_chat_unpin m) ∉ new) /\
    new = [SessionEmit 0 (ev_chat_pin (sample_frame "chat.pin"))].
Proof.
  destruct (chat_unpin_never_emitted (host := sample_host) 0 "a chat.pin frame" w_joined)
    as (_ & _ & new & Hw & Hnever & Hpin).
  exists new. split; [exact Hw |]. split; [exact Hnever |].
  exact (Hpin _ eq_refl eq_refl).
Defined.

(** * More properties of the client *)

Section MoreProperties.

Context {host : Host} {listing : ListingHost}.

(** ** What every method keeps *)

#[local] Instance grows_preorder : PreOrder grows.
Proof.
  split.
  - intros w. unfold grows, sessions_evolve, cache_grows. by repeat split.
  - intros w1 w2 w3 (H1 & H2 & H3 & H4) (K1 & K2 & K3 & K4).
    unfold grows, sessions_evolve, cache_grows in *.
    repeat split; [by etrans | by etrans | auto | by etrans].
Qed.

Lemma keeps_bind {A B} (R : World -> World -> Prop) `{!PreOrder R}
    (m : M A) (k : A -> M B) :
  keeps R m -> (forall a, keeps R (k a)) -> keeps R (bind m k).
Proof.
  intros Hm Hk w. unfold bind. specialize (Hm w).
  destruct (m w) as [[a | e | | e] w1]; cbn in *; try done.
  etrans; [exact Hm | apply Hk].
Qed.

Lemma keeps_try_catch {A} (R : World -> World -> Prop) `{!PreOrder R}
    (m : M A) (h : JsError -> M A) :
  keeps R m -> (forall e, keeps R (h e)) -> keeps R (try_catch m h).
Proof.
  intros Hm Hh w. unfold try_catch. specialize (Hm w).
  destruct (m w) as [[a | e | | e] w1]; cbn in *; try done.
  etrans; [exact Hm | apply Hh].
Qed.

Lemma session_update_url s s' :
  session_update s s' -> raceSocketUrl s' = raceSocketUrl s.
Proof.
  intros [s0 | s0 err | s0 message _]; cbn; unfold settle;
    by destruct (joined s0).
Qed.

Lemma heap_step_lookup h h' id s :
  heap_step h h' -> h !! id = Some s ->
  exists s', h' !! id = Some s' /\ (s' = s \/ session_update s s').
Proof.
  intros [h0 i s0 s1 Hi Hu | h0 roomUrl] Hs.
  - destruct (decide (i = id)) as [-> | Hne].
    + exists s1. rewrite list_lookup_insert_eq by by eapply lookup_lt_Some.
      split; [done |]. right. congruence.
    + exists s. rewrite list_lookup_insert_ne by done. auto.
  - exists s. split; [| auto]. by apply lookup_app_l_Some.
Qed.

Lemma heap_steps_url h h' id s :
  rtc heap_step h h' -> h !! id = Some s ->
  exists s', h' !! id = Some s' /\ raceSocketUrl s' = raceSocketUrl s.
Proof.
  intros Hsteps. revert s. induction Hsteps as [| h0 h1 h2 Hstep _ IH]; intros s Hs.
  - by exists s.
  - destruct (heap_step_lookup _ _ _ _ Hstep Hs) as (s1 & Hs1 & Hrel).
    destruct (IH _ Hs1) as (s2 & Hs2 & Hurl). exists s2. split; [done |].
    rewrite Hurl. destruct Hrel as [-> | Hu]; [done | by apply session_update_url].
Qed.

Lemma coherent_evolve w w' :
  sessions_evolve w w' -> sockets (client w') = sockets (client w) ->
  coherent w -> coherent w'.
Proof.
  intros He Hs Hc roomUrl id Hr. rewrite Hs in Hr.
  destruct (Hc _ _ Hr) as (s & Hid & Hurl).
  destruct (heap_steps_url _ _ _ _ He Hid) as (s' & Hs' & Hurl').
  exists s'. split; [done | congruence].
Qed.

(** A method that touches no session and no entry of the registry, and
    forgets no race. *)
Lemma grows_sessions_same w w' :
  heap w' = heap w -> sockets (client w') = sockets (client w) ->
  cache_grows w w' -> grows w w'.
Proof.
  intros Hh Hs Hc.
  assert (He : sessions_evolve w w') by (unfold sessions_evolve; by rewrite Hh).
  repeat split; [done | by rewrite Hs | by apply coherent_evolve | done].
Qed.

Lemma grows_sessions w w' :
  sessions_evolve w w' -> client w' = client w -> grows w w'.
Proof.
  intros He Hc. repeat split; [done | by rewrite Hc | | unfold cache_grows; by rewrite Hc].
  apply coherent_evolve; [done | by rewrite Hc].
Qed.

Lemma grows_frame w w' :
  heap w' = heap w -> client w' = client w -> grows w w'.
Proof.
  intros Hh Hc. apply grows_sessions; [| done].
  unfold sessions_evolve. by rewrite Hh.
Qed.

Lemma keeps_grows_same {A} (m : M A) :
  (forall w, heap (m w).2 = heap w /\ client (m w).2 = client w) ->
  keeps grows m.
Proof.
  intros Hm w. destruct (Hm w) as [Hh Hc].
  apply grows_sessions_same; [done | by rewrite Hc |].
  unfold cache_grows. by rewrite Hc.
Qed.

Lemma keeps_grows_refresh_if_expired : keeps grows refresh_if_expired.
Proof.
  intros w. destruct (refresh_if_expired_frame w) as (_ & Hh & Hs & Hc & _).
  apply grows_sessions_same; [done | done |]. unfold cache_grows. by rewrite Hc.
Qed.

Lemma keeps_grows_authenticatedFetch url init :
  keeps grows (authenticatedFetch url init).
Proof.
  unfold authenticatedFetch.
  apply keeps_bind; [apply _ | apply keeps_grows_refresh_if_expired |].
  intros _. apply keeps_grows_same. intros w. unfold this_client, bind.
  destruct (auth (client w)); [| done].
  destruct (fetch_frame url
              {| method := method (default {| method := None; headers := []; body := None |} init);
                 headers := set_header "Authorization"
                              ("Bearer " +:+ access_token c)
                              (headers (default {| method := None; headers := []; body := None |} init));
                 body := body (default {| method := None; headers := []; body := None |} init) |} w)
    as (_ & Hc & Hh).
  done.
Qed.

Lemma received_grows raceUrl r w : grows w (received raceUrl r w).2.
Proof.
  unfold received. destruct (ok r); [| done].
  destruct (snapshot_of (resp_body r)) as [e | d]; cbn.
  - by apply grows_frame.
  - apply grows_sessions_same; [done | done |].
    unfold cache_grows. cbn. rewrite dom_insert_L. set_solver.
Qed.

Lemma keeps_grows_fetchRaceData raceUrl : keeps grows (fetchRaceData raceUrl).
Proof.
  intros w. destruct (fresh raceUrl w) as [d |] eqn:Hf.
  - by rewrite (fetchRaceData_hit _ _ _ Hf).
  - rewrite (fetchRaceData_miss _ _ Hf).
    pose proof (keeps_grows_authenticatedFetch (data_endpoint raceUrl) None w) as Ha.
    destruct (authenticatedFetch (data_endpoint raceUrl) None w) as [[r | e | | e] w1];
      cbn [snd] in *; try done.
    etrans; [exact Ha | apply received_grows].
Qed.

Lemma keeps_grows_sendMessage id message : keeps grows (sendMessage id message).
Proof.
  intros w. apply grows_sessions; [| apply sendMessage_client].
  unfold sessions_evolve.
  destruct (heap w !! id) as [s |] eqn:Hs.
  - destruct (ready s) eqn:Hr.
    + by rewrite (sendMessage_ready _ _ _ _ Hs Hr).
    + rewrite (sendMessage_not_ready _ _ _ _ Hs Hr). cbn.
      apply rtc_once. apply (heap_update _ _ s); [done |].
      by apply update_enqueue.
  - unfold sendMessage, this_, bind. by rewrite Hs.
Qed.

Lemma keeps_grows_deliver id ev : keeps grows (deliver id ev).
Proof.
  intros w. apply grows_sessions; [| apply deliver_client].
  unfold sessions_evolve, deliver.
  destruct (heap w !! id) as [s |] eqn:Hs; [| done].
  rewrite escapes_world.
  destruct ev as [| data | code reason | err]; cbn [listener].
  - rewrite (on_open_flush _ _ _ Hs). cbn.
    apply rtc_once. apply (heap_update _ _ s); [done | apply update_open].
  - by destruct (on_message_records id data w) as [new ->].
  - destruct (Z.ltb_spec 1000 code).
    + by rewrite on_close_abnormal.
    + by rewrite on_close_normal.
  - rewrite (on_error_settles _ _ _ _ Hs). cbn.
    apply rtc_once. apply (heap_update _ _ s); [done | apply update_error].
Qed.

Lemma keeps_grows_settled id events : keeps grows (settled id events).
Proof.
  induction events as [| [[dt i] ev] rest IH]; intros w; cbn.
  - destruct (joined <$> heap w !! id) as [[| |] |]; by apply grows_frame.
  - destruct (joined <$> heap w !! id) as [[| |] |];
      try by apply grows_frame.
    pose proof (keeps_grows_deliver i ev (advance dt (set_wire rest w))) as Hd.
    assert (H0 : grows w (advance dt (set_wire rest w))) by by apply grows_frame.
    destruct (deliver i ev (advance dt (set_wire rest w))) as [[[] | e | | e] w1];
      cbn in Hd |- *; try by etrans.
    etrans; [exact H0 |]. etrans; [exact Hd | apply IH].
Qed.

Lemma keeps_grows_await joining : keeps grows (await joining).
Proof.
  destruct joining as [| id]; [by apply keeps_grows_same |].
  intros w. unfold await, get, bind. apply keeps_grows_settled.
Qed.

Lemma opened_coherent roomUrl cred w :
  sockets (client w) !! roomUrl = None -> coherent w ->
  coherent (opened roomUrl cred w).
Proof.
  intros Hnone Hc u id. unfold opened. cbn.
  destruct (decide (roomUrl = u)) as [<- | Hne].
  - rewrite lookup_insert_eq. intros [= <-]. exists (new_session roomUrl).
    split; [| done]. rewrite lookup_app_r by done.
    by rewrite Nat.sub_diag.
  - rewrite lookup_insert_ne by done. intros Hu.
    destruct (Hc _ _ Hu) as (s & Hs & Hurl). exists s.
    split; [by apply lookup_app_l_Some | done].
Qed.

Lemma keeps_grows_joinRaceRoom roomUrl : keeps grows (joinRaceRoom roomUrl).
Proof.
  intros w. unfold joinRaceRoom, this_client, bind at 1.
  destruct (sockets (client w) !! roomUrl) eqn:Hs; [done |].
  pose proof (keeps_grows_refresh_if_expired w) as Hr.
  destruct (refresh_if_expired_frame w) as (_ & Hh & Hk & _).
  unfold bind at 1.
  destruct (refresh_if_expired w) as [[[] | e | | e] w1]; cbn [snd] in *;
    try done.
  etrans; [exact Hr |].
  unfold new_WebSocketClient, get, bind at 1 2.
  destruct (auth (client w1)) as [cred |] eqn:Ha; cbn; [| done].
  change (grows w1 (opened roomUrl cred w1)).
  assert (Hnone : sockets (client w1) !! roomUrl = None) by by rewrite Hk.
  repeat split.
  - unfold sessions_evolve, opened. cbn. apply rtc_once, heap_new.
  - unfold opened. cbn. by apply insert_subseteq.
  - by apply opened_coherent.
  - by unfold cache_grows.
Qed.

Lemma keeps_grows_cancelRace raceUrl : keeps grows (cancelRace raceUrl).
Proof.
  unfold cancelRace.
  apply keeps_bind; [apply _ | apply keeps_grows_fetchRaceData |].
  intros [raceData |]; [| by apply keeps_grows_same].
  apply keeps_bind; [apply _ | apply keeps_grows_joinRaceRoom |]. intros joining.
  apply keeps_bind; [apply _ | apply keeps_grows_await |]. intros _.
  apply keeps_bind; [apply _ | by apply keeps_grows_same |]. intros this.
  apply keeps_bind; [apply _ | |].
  - destruct (sockets this !! websocket_bot_url raceData);
      [apply keeps_grows_sendMessage | by apply keeps_grows_same].
  - intros _. apply keeps_bind; [apply _ | apply keeps_grows_fetchRaceData |].
    intros [newData |]; apply keeps_grows_same; [| done].
    intros w. by destruct (String.eqb _ _).
Qed.

Lemma keeps_grows_createRace raceData connectToRoom :
  keeps grows (createRace raceData connectToRoom).
Proof.
  unfold createRace.
  apply keeps_bind; [apply _ | by apply keeps_grows_same |]. intros this.
  apply keeps_bind; [apply _ | apply keeps_grows_authenticatedFetch |]. intros r.
  destruct (resp_status r =? 201); [| by apply keeps_grows_same].
  apply keeps_bind; [apply _ | apply keeps_grows_fetchRaceData |]. intros d.
  apply keeps_bind; [apply _ | | intros _; by apply keeps_grows_same].
  destruct connectToRoom; [| by apply keeps_grows_same].
  destruct d as [details |]; [| by apply keeps_grows_same].
  apply keeps_bind; [apply _ | apply keeps_grows_joinRaceRoom |]. intros joining.
  apply keeps_bind; [apply _ | apply keeps_grows_await |]. intros _.
  by apply keeps_grows_same.
Qed.

Lemma keeps_grows_fetchRaces : keeps grows fetchRaces.
Proof.
  unfold fetchRaces.
  apply keeps_bind; [apply _ | by apply keeps_grows_same |]. intros this.
  apply keeps_bind; [apply _ | apply keeps_grows_authenticatedFetch |]. intros r.
  destruct (ok r); [| by apply keeps_grows_same].
  apply keeps_grows_same. intros w. by destruct (json_CategoryDetail (resp_body r)).
Qed.

Lemma keeps_grows_RacetimeClient_sendMessage guid raceUrl message pin :
  keeps grows (RacetimeClient_sendMessage guid raceUrl message pin).
Proof.
  unfold RacetimeClient_sendMessage. cbn zeta.
  apply keeps_bind; [apply _ | apply keeps_grows_fetchRaceData |].
  intros [raceData |]; [| by apply keeps_grows_same].
  apply keeps_bind; [apply _ | apply keeps_grows_joinRaceRoom |]. intros joining.
  apply keeps_bind; [apply _ | apply keeps_grows_await |]. intros _.
  apply keeps_bind; [apply _ | by apply keeps_grows_same |]. intros this.
  destruct (sockets this !! websocket_bot_url raceData);
    [apply keeps_grows_sendMessage | by apply keeps_grows_same].
Qed.

Lemma step_grows w w' : step w w' -> grows w w'.
Proof.
  intros [id ev w0 | roomUrl w0 | joining w0 | id message w0 | raceUrl w0
          | url init w0 | raceUrl w0 | w0 w1 Hc Hh].
  - apply keeps_grows_deliver.
  - apply keeps_grows_joinRaceRoom.
  - apply keeps_grows_await.
  - apply keeps_grows_sendMessage.
  - apply keeps_grows_fetchRaceData.
  - apply keeps_grows_authenticatedFetch.
  - apply keeps_grows_cancelRace.
  - apply grows_sessions_same; [done | by rewrite Hc |].
    unfold cache_grows. by rewrite Hc.
Qed.

Lemma life_grows w w' : rtc life w w' -> grows w w'.
Proof.
  induction 1 as [| w0 w1 w2 Hlife _ IH]; [done |].
  etrans; [| exact IH].
  destruct Hlife as [w0 w1 Hstep | raceData c w0 | w0 | guid raceUrl message pin w0].
  - by apply step_grows.
  - apply keeps_grows_createRace.
  - apply keeps_grows_fetchRaces.
  - apply keeps_grows_RacetimeClient_sendMessage.
Qed.

(** ** The sessions over the life of a client *)

#[local] Instance later_of_preorder : PreOrder later_of.
Proof.
  split.
  - intros s. by repeat split.
  - intros s1 s2 s3 (Hu & Hr & Hj & Hq) (Hu' & Hr' & Hj' & Hq').
    repeat split.
    + congruence.
    + auto.
    + intros Hne. rewrite Hj' by (by rewrite Hj). by apply Hj.
    + intros Hn. assert (ready s2 = false) as Hn2.
      { destruct (ready s2); [| done]. rewrite Hr' in Hn; done. }
      etrans; [by apply Hq | by apply Hq'].
Qed.

Lemma session_update_later s s' : session_update s s' -> later_of s s'.
Proof.
  intros [s0 | s0 err | s0 message Hr]; unfold later_of.
  - unfold at_open. cbn. rewrite joined_settle.
    repeat split; [by unfold settle; destruct (joined s0) | | done].
    by destruct (joined s0).
  - rewrite joined_settle. unfold settle.
    destruct (joined s0); cbn; by repeat split.
  - unfold enqueue. cbn. repeat split; [done |]. intros _. by apply prefix_app_r.
Qed.

Lemma heap_steps_later h h' id s :
  rtc heap_step h h' -> h !! id = Some s ->
  exists s', h' !! id = Some s' /\ later_of s s'.
Proof.
  intros Hsteps. revert s.
  induction Hsteps as [| h0 h1 h2 Hstep _ IH]; intros s Hs.
  - by exists s.
  - destruct (heap_step_lookup _ _ _ _ Hstep Hs) as (s1 & Hs1 & Hrel).
    destruct (IH _ Hs1) as (s2 & Hs2 & Hlater). exists s2. split; [done |].
    etrans; [| exact Hlater].
    destruct Hrel as [-> | Hu]; [done | by apply session_update_later].
Qed.

Lemma session_update_flushed s s' : session_update s s' -> flushed s -> flushed s'.
Proof.
  intros [s0 | s0 err | s0 message Hr] Hf; unfold flushed in *.
  - done.
  - unfold settle. by destruct (joined s0).
  - cbn. by rewrite Hr.
Qed.

Lemma heap_steps_flushed h h' :
  rtc heap_step h h' -> Forall flushed h -> Forall flushed h'.
Proof.
  induction 1 as [| h0 h1 h2 Hstep _ IH]; [done |]. intros Hf. apply IH.
  destruct Hstep as [h0 id s s' Hs Hu | h0 roomUrl].
  - apply Forall_insert; [done |].
    eapply session_update_flushed; [done |]. by eapply Forall_lookup_1.
  - apply Forall_app. split; [done |]. by apply Forall_singleton.
Qed.

Lemma joinRaceRoom_pieces roomUrl w :
  sockets (client w) !! roomUrl = None ->
  joinRaceRoom roomUrl w = (refresh_if_expired ;;; register_session roomUrl) w.
Proof.
  intros Hs. unfold joinRaceRoom, this_client, bind at 1. by rewrite Hs.
Qed.

Lemma register_session_opened roomUrl cred w :
  auth (client w) = Some cred ->
  register_session roomUrl w =
    (Ret (of_session (length (heap w))), opened roomUrl cred w).
Proof.
  intros Ha. unfold register_session, new_WebSocketClient, get, bind at 1 2.
  rewrite Ha. by cbn.
Qed.

Lemma register_session_refused roomUrl w :
  auth (client w) = None -> (register_session roomUrl w).2 = w.
Proof.
  intros Ha. unfold register_session, new_WebSocketClient, get, bind at 1 2.
  by rewrite Ha.
Qed.

Lemma opened_registry roomUrl cred w :
  (coherent w -> coherent (opened roomUrl cred w)) /\
  dom (sockets (client w)) ⊆ dom (sockets (client (opened roomUrl cred w))).
Proof.
  split.
  - intros Hc u id. unfold opened. cbn.
    destruct (decide (roomUrl = u)) as [<- | Hne].
    + rewrite lookup_insert_eq. intros [= <-]. exists (new_session roomUrl).
      split; [| done]. rewrite lookup_app_r by done. by rewrite Nat.sub_diag.
    + rewrite lookup_insert_ne by done. intros Hu.
      destruct (Hc _ _ Hu) as (s & Hs & Hurl). exists s.
      split; [by apply lookup_app_l_Some | done].
  - unfold opened. cbn. rewrite dom_insert_L. set_solver.
Qed.

Lemma overlapping_registry w w' :
  overlapping w w' ->
  (coherent w -> coherent w') /\
  dom (sockets (client w)) ⊆ dom (sockets (client w')).
Proof.
  intros [w0 w1 Hlife | cred w0 | roomUrl w0 | raceUrl raceDetails w0].
  - destruct (life_grows w0 w1 (rtc_once _ _ Hlife)) as (_ & Hs & Hk & _).
    split; [done | by apply subseteq_dom].
  - split; [| done]. intros Hc roomUrl id Hr. by apply Hc.
  - destruct (auth (client w0)) as [cred |] eqn:Ha.
    + rewrite (register_session_opened _ _ _ Ha). apply opened_registry.
    + by rewrite (register_session_refused _ _ Ha).
  - split; [| done]. intros Hc roomUrl id Hr. by apply Hc.
Qed.

(** X1 (coherence of the registry): every room of the registry is mapped to
    a session that exists and that was made for that room, and this stays
    so whatever the client does and whatever its sockets report, also when
    calls overlap; and no room is ever taken out of the registry.  (A join
    that another join of the room has overtaken maps the room to its own
    new session; the room is then registered to the later of the two.) *)
Theorem registry_stays_coherent (w w' : World) :
  coherent w -> rtc overlapping w w' ->
  coherent w' /\
  dom (sockets (client w)) ⊆ dom (sockets (client w')).
Proof.
  intros Hc Hsteps. induction Hsteps as [| w0 w1 w2 Hstep _ IH]; [done |].
  destruct (overlapping_registry _ _ Hstep) as [Hk Hd].
  destruct (IH (Hk Hc)) as [Hc2 Hd2]. split; [done | by etrans].
Qed.

(** X2 (a ready session has an empty queue): once every ready session has
    nothing queued, this holds for ever: the open listener empties the
    queue when it sets the session ready, and [sendMessage] queues only
    while the session is not ready. *)
Theorem ready_session_has_empty_queue (w w' : World) :
  Forall flushed (heap w) -> rtc life w w' -> Forall flushed (heap w').
Proof.
  intros Hf Hlife. destruct (life_grows _ _ Hlife) as (He & _).
  by eapply heap_steps_flushed.
Qed.

(** X3 (sessions never regress): over the life of a client a session is
    never removed from the heap and never changes its room; once ready it
    stays ready (no close or error resets it); a join that has settled
    keeps its outcome; and while the session is not ready its queue only
    grows at the end. *)
Theorem sessions_never_regress (w w' : World) (id : nat) (s : WebSocketClient) :
  rtc life w w' -> heap w !! id = Some s ->
  exists s',
    heap w' !! id = Some s' /\
    raceSocketUrl s' = raceSocketUrl s /\
    (ready s = true -> ready s' = true) /\
    (joined s <> Pending -> joined s' = joined s) /\
    (ready s' = false -> messageQueue s `prefix_of` messageQueue s').
Proof.
  intros Hlife Hs. destruct (life_grows _ _ Hlife) as (He & _).
  destruct (heap_steps_later _ _ _ _ He Hs) as (s' & Hs' & Hlater).
  by exists s'.
Qed.

(** ** The methods that stay off the sockets *)

#[local] Instance silent_preorder : PreOrder silent.
Proof.
  split.
  - intros w. repeat split. exists []. by rewrite app_nil_r.
  - intros w1 w2 w3 (Hh & Hs & new & Ht & Hq) (Hh' & Hs' & new' & Ht' & Hq').
    repeat split; [congruence | congruence |].
    exists (new ++ new'). rewrite Ht', Ht, app_assoc. split; [done |].
    rewrite forallb_app, Hq, Hq'. done.
Qed.

Lemma off_socket_observed id new :
  forallb off_socket new = true -> connections new = [] /\ sent id new = [].
Proof.
  induction new as [| e new IH]; [done |]. cbn [forallb].
  intros [He Hnew]%andb_prop. destruct (IH Hnew) as [Hc Hs].
  unfold connections, sent in *. destruct e; csimpl; try done.
Qed.

Lemma silent_observed w w' :
  silent w w' ->
  heap w' = heap w /\ sockets (client w') = sockets (client w) /\
  connections (trace w') = connections (trace w) /\
  forall id, sent id (trace w') = sent id (trace w).
Proof.
  intros (Hh & Hs & new & Ht & Hq). repeat split; [done | done | |].
  - rewrite Ht, connections_app.
    destruct (off_socket_observed 0%nat new Hq) as [-> _]. by rewrite app_nil_r.
  - intros id. rewrite Ht, sent_app.
    destruct (off_socket_observed id new Hq) as [_ ->]. by rewrite app_nil_r.
Qed.

Lemma silent_frame w w' :
  heap w' = heap w -> client w' = client w -> trace w' = trace w -> silent w w'.
Proof.
  intros Hh Hc Ht. repeat split; [done | by rewrite Hc |].
  exists []. by rewrite app_nil_r.
Qed.

Lemma keeps_silent_same {A} (m : M A) :
  (forall w, (m w).2 = w) -> keeps silent m.
Proof. intros Hm w. by rewrite Hm. Qed.

Lemma keeps_silent_fetch url init : keeps silent (fetch url init).
Proof.
  intros w. destruct (fetch_frame url init w) as (Ht & Hc & Hh).
  repeat split; [done | by rewrite Hc |]. by exists [Fetch url init].
Qed.

Lemma keeps_silent_authorize : keeps silent authorize.
Proof.
  intros w. destruct (net w) as [| [dt [e | r]] rest] eqn:Hn.
  - rewrite (authorize_unanswered _ Hn). repeat split. by eexists [_].
  - rewrite (authorize_rejected _ _ _ _ Hn). repeat split. by eexists [_].
  - destruct (ok r) eqn:Hok.
    + destruct (json_Credentials (resp_body r)) as [cred |] eqn:Hj.
      * rewrite (authorize_granted _ _ _ _ _ Hn Hok Hj). repeat split. by eexists [_].
      * rewrite (authorize_undecoded _ _ _ _ Hn Hok Hj). repeat split. by eexists [_].
    + rewrite (authorize_refused _ _ _ _ Hn Hok). repeat split.
      eexists [_; _]. cbn. by rewrite <- app_assoc.
Qed.

Lemma keeps_silent_refresh_if_expired : keeps silent refresh_if_expired.
Proof.
  intros w. destruct (Z.lt_ge_cases (now w) (authExpireTime (client w))) as [Hv | He].
  - by rewrite refresh_if_expired_valid.
  - rewrite refresh_if_expired_expired by done.
    apply keeps_bind; [apply _ | apply keeps_silent_authorize |].
    intros []; by apply keeps_silent_same.
Qed.

Lemma keeps_silent_authenticatedFetch url init :
  keeps silent (authenticatedFetch url init).
Proof.
  unfold authenticatedFetch.
  apply keeps_bind; [apply _ | apply keeps_silent_refresh_if_expired |].
  intros _. apply keeps_bind; [apply _ | by apply keeps_silent_same |].
  intros this. destruct (auth this); [apply keeps_silent_fetch | by apply keeps_silent_same].
Qed.

Lemma received_silent raceUrl r w : silent w (received raceUrl r w).2.
Proof.
  unfold received. destruct (ok r); [| done].
  destruct (snapshot_of (resp_body r)); cbn.
  - repeat split. by eexists [_; _].
  - repeat split. exists []. cbn. by rewrite app_nil_r.
Qed.

Lemma keeps_silent_fetchRaceData raceUrl : keeps silent (fetchRaceData raceUrl).
Proof.
  intros w. destruct (fresh raceUrl w) as [d |] eqn:Hf.
  - by rewrite (fetchRaceData_hit _ _ _ Hf).
  - rewrite (fetchRaceData_miss _ _ Hf).
    pose proof (keeps_silent_authenticatedFetch (data_endpoint raceUrl) None w) as Ha.
    destruct (authenticatedFetch (data_endpoint raceUrl) None w) as [[r | e | | e] w1];
      cbn [snd] in *; try done.
    etrans; [exact Ha | apply received_silent].
Qed.

Lemma keeps_silent_fetchRaces : keeps silent fetchRaces.
Proof.
  unfold fetchRaces.
  apply keeps_bind; [apply _ | by apply keeps_silent_same |]. intros this.
  apply keeps_bind; [apply _ | apply keeps_silent_authenticatedFetch |]. intros r.
  destruct (ok r); [| by apply keeps_silent_same].
  apply keeps_silent_same. intros w. by destruct (json_CategoryDetail (resp_body r)).
Qed.

Lemma keeps_silent_createRace raceData : keeps silent (createRace raceData false).
Proof.
  unfold createRace.
  apply keeps_bind; [apply _ | by apply keeps_silent_same |]. intros this.
  apply keeps_bind; [apply _ | apply keeps_silent_authenticatedFetch |]. intros r.
  destruct (resp_status r =? 201); [| by apply keeps_silent_same].
  apply keeps_bind; [apply _ | apply keeps_silent_fetchRaceData |]. intros d.
  apply keeps_bind; [apply _ | by apply keeps_silent_same |].
  intros _. by apply keeps_silent_same.
Qed.

Lemma authenticatedFetch_cache url init w :
  raceDetailsCache (client (authenticatedFetch url init w).2) =
  raceDetailsCache (client w).
Proof.
  unfold authenticatedFetch, bind at 1.
  destruct (refresh_if_expired_frame w) as (_ & _ & _ & Hc & _).
  destruct (refresh_if_expired w) as [[[] | e | | e] w1]; cbn [snd] in *; try done.
  unfold this_client, bind. destruct (auth (client w1)) as [cred |]; [| done].
  match goal with |- context [fetch ?u ?i w1] =>
    destruct (fetch_frame u i w1) as (_ & Hk & _) end.
  by rewrite Hk.
Qed.

(** ** Inbound frames *)

Lemma handled_in_process id message :
  forallb in_process (handled id message).2 = true.
Proof.
  unfold handled. destruct (frame_kind message) as [[] |]; by cbn.
Qed.

Lemma handled_unknown id message :
  frame_kind message = None -> exists e, (handled id message).1 = Throw e.
Proof.
  intros Hk. unfold handled. rewrite Hk. destruct message; cbn; eauto.
Qed.

Lemma deliver_message id s data w :
  heap w !! id = Some s ->
  deliver id (sock_message data) w =
    escapes (handleMessage id data (record [SessionEmit id (ev_raw_message data)] w)).
Proof.
  intros Hs. unfold deliver. rewrite Hs. cbn [listener].
  unfold on_message, emit, effect, modify, bind. cbn.
  by destruct (handleMessage id data (record [SessionEmit id (ev_raw_message data)] w))
    as [[] w1].
Qed.

(** X4 (an inbound frame changes no state): the message listener first
    emits the raw frame, whatever it holds, and then only emits events and
    logs: the client, its cache and every session stay as they were (a
    race.data frame does not refresh the cached snapshot), nothing is sent
    and no request is made.  The exception of a frame that does not decode,
    or whose type is unknown, is caught by nobody. *)
Theorem inbound_frame_changes_no_state
    (id : nat) (s : WebSocketClient) (data : RawData) (w : World) :
  heap w !! id = Some s ->
  exists new,
    (deliver id (sock_message data) w).2 =
      record (SessionEmit id (ev_raw_message data) :: new) w /\
    forallb in_process new = true /\
    (JSON_parse data = None ->
       new = [] /\
       (deliver id (sock_message data) w).1 = Uncaught (SyntaxError "JSON.parse")) /\
    (forall message,
       JSON_parse data = Some message ->
       match frame_kind message with
       | Some _ => (deliver id (sock_message data) w).1 = Ret tt
       | None => exists e, (deliver id (sock_message data) w).1 = Uncaught e
       end).
Proof.
  intros Hs. rewrite (deliver_message _ _ _ _ Hs).
  destruct (JSON_parse data) as [message |] eqn:Hp.
  - rewrite (handleMessage_handled _ _ _ _ Hp). exists (handled id message).2.
    rewrite escapes_world. cbn [snd]. rewrite record_record.
    split; [done |]. split; [apply handled_in_process |]. split; [done |].
    intros ? [= <-]. destruct (frame_kind message) as [k |] eqn:Hk.
    + unfold handled. by rewrite Hk.
    + destruct (handled_unknown id message Hk) as [e He]. exists e.
      destruct (handled id message) as [o new]. cbn in He. by subst o.
  - rewrite (handleMessage_undecoded _ _ _ Hp). exists []. cbn.
    repeat split; done.
Qed.

(** ** The cache of snapshots *)

Lemma fetchRaceData_other_key raceUrl u w :
  u <> raceUrl ->
  raceDetailsCache (client (fetchRaceData raceUrl w).2) !! u =
  raceDetailsCache (client w) !! u.
Proof.
  intros Hne. destruct (fresh raceUrl w) as [d |] eqn:Hf.
  - by rewrite (fetchRaceData_hit _ _ _ Hf).
  - rewrite (fetchRaceData_miss _ _ Hf).
    pose proof (authenticatedFetch_cache (data_endpoint raceUrl) None w) as Ha.
    destruct (authenticatedFetch (data_endpoint raceUrl) None w) as [[r | e | | e] w1];
      cbn [snd] in *; try by rewrite Ha.
    rewrite <- Ha. unfold received. destruct (ok r); [| done].
    destruct (snapshot_of (resp_body r)); cbn; [done |].
    by rewrite lookup_insert_ne.
Qed.

(** X5 (the cache only grows): no method and no report of a socket takes
    a race out of the cache of snapshots; a get of one race leaves the
    entries of all other races as they are; and the reports of the sockets,
    the joins and the sends leave the whole cache as it is. *)
Theorem cache_only_grows (w : World) :
  (forall w', rtc life w w' ->
     dom (raceDetailsCache (client w)) ⊆ dom (raceDetailsCache (client w'))) /\
  (forall raceUrl u, u <> raceUrl ->
     raceDetailsCache (client (fetchRaceData raceUrl w).2) !! u =
     raceDetailsCache (client w) !! u) /\
  (forall id ev,
     raceDetailsCache (client (deliver id ev w).2) = raceDetailsCache (client w)) /\
  (forall roomUrl,
     raceDetailsCache (client (joinRaceRoom roomUrl w).2) = raceDetailsCache (client w)) /\
  raceDetailsCache (client (fetchRaces w).2) = raceDetailsCache (client w).
Proof.
  repeat split.
  - intros w' Hlife. by destruct (life_grows _ _ Hlife) as (_ & _ & _ & Hc).
  - intros raceUrl u. apply fetchRaceData_other_key.
  - intros id ev. by rewrite deliver_client.
  - intros roomUrl. apply joinRaceRoom_cache.
  - unfold fetchRaces, this_client, bind at 1.
    pose proof (authenticatedFetch_cache (listing_endpoint (client w)) None w) as Ha.
    unfold bind.
    destruct (authenticatedFetch (listing_endpoint (client w)) None w)
      as [[r | e | | e] w1]; cbn [snd] in *; try done.
    destruct (ok r); [| done]. by destruct (json_CategoryDetail (resp_body r)).
Qed.

(** ** Commands on a race that is not there *)

(** X6 (no snapshot, no command): when the get of the race returns [null],
    [cancelRace] and [sendMessage] throw the TypeError of reading
    [websocket_bot_url] of [null], before any join: no session is made, no
    room is registered, no socket is opened and nothing is sent. *)
Theorem absent_snapshot_stops_the_command
    (guid raceUrl message : string) (pin : option bool) (w w1 : World) :
  fetchRaceData raceUrl w = (Ret None, w1) ->
  cancelRace raceUrl w =
    (Throw (TypeError "Cannot read properties of null (reading 'websocket_bot_url')"), w1) /\
  RacetimeClient_sendMessage guid raceUrl message pin w =
    (Throw (TypeError "Cannot read properties of null (reading 'websocket_bot_url')"), w1) /\
  heap w1 = heap w /\ sockets (client w1) = sockets (client w) /\
  connections (trace w1) = connections (trace w) /\
  forall id, sent id (trace w1) = sent id (trace w).
Proof.
  intros Hf. split; [| split].
  - unfold cancelRace. by rewrite (bind_Ret _ _ _ _ _ Hf).
  - unfold RacetimeClient_sendMessage. cbn zeta. by rewrite (bind_Ret _ _ _ _ _ Hf).
  - pose proof (keeps_silent_fetchRaceData raceUrl w) as Hs. rewrite Hf in Hs.
    by apply silent_observed.
Qed.

(** ** A credential that cannot be renewed *)

(** X7 (a failed renewal stops every method): when the check of the
    credential throws, [createRace] and [fetchRaces] throw the same
    exception, and so do [cancelRace] and [sendMessage] on a race that is
    not fresh in the cache; the world is the one the check left, with no
    request of the method itself and no socket. *)
Theorem failed_renewal_stops_every_method (e : JsError) (w w1 : World) :
  refresh_if_expired w = (Throw e, w1) ->
  (forall raceData connectToRoom,
     createRace raceData connectToRoom w = (Throw e, w1)) /\
  fetchRaces w = (Throw e, w1) /\
  (forall raceUrl, fresh raceUrl w = None ->
     cancelRace raceUrl w = (Throw e, w1) /\
     forall guid message pin,
       RacetimeClient_sendMessage guid raceUrl message pin w = (Throw e, w1)) /\
  heap w1 = heap w /\ sockets (client w1) = sockets (client w) /\
  connections (trace w1) = connections (trace w) /\
  network_calls (trace w1) =
    network_calls (trace w) ++
      [("https://racetime.gg/o/token", token_request (client w))].
Proof.
  intros Hr.
  assert (Hget : forall raceUrl, fresh raceUrl w = None ->
                 fetchRaceData raceUrl w = (Throw e, w1)).
  { intros raceUrl Hf. rewrite (fetchRaceData_miss _ _ Hf).
    by rewrite (authenticatedFetch_refused _ _ _ _ _ Hr). }
  split; [| split; [| split]].
  - intros raceData connectToRoom. unfold createRace, this_client, bind at 1.
    by rewrite (bind_Throw _ _ _ _ _ (authenticatedFetch_refused _ _ _ _ _ Hr)).
  - unfold fetchRaces, this_client, bind at 1.
    by rewrite (bind_Throw _ _ _ _ _ (authenticatedFetch_refused _ _ _ _ _ Hr)).
  - intros raceUrl Hf. split; [| intros guid message pin].
    + unfold cancelRace. by rewrite (bind_Throw _ _ _ _ _ (Hget _ Hf)).
    + unfold RacetimeClient_sendMessage. cbn zeta.
      by rewrite (bind_Throw _ _ _ _ _ (Hget _ Hf)).
  - destruct (refresh_if_expired_frame w) as ((new & Ht & Hc & Hn) & Hh & Hs & _).
    rewrite Hr in Ht, Hh, Hs. cbn [snd] in *.
    repeat split; [done | done | |].
    + rewrite Ht, connections_app, Hc. by rewrite app_nil_r.
    + assert (Hexp : authExpireTime (client w) <= now w).
      { destruct (Z.lt_ge_cases (now w) (authExpireTime (client w))) as [Hv | He];
          [| lia].
        by rewrite (refresh_if_expired_valid _ Hv) in Hr. }
      apply Z.leb_le in Hexp. rewrite Hexp in Hn.
      rewrite Ht. unfold network_calls in *. by rewrite omap_app, Hn.
Qed.

(** ** Joins that do not resolve *)

Lemma settled_pending id s dt i ev rest w :
  heap w !! id = Some s -> joined s = Pending ->
  settled id ((dt, i, ev) :: rest) w =
    match deliver i ev (advance dt (set_wire rest w)) with
    | (Ret _, w1) => settled id rest w1
    | (Throw e, w1) => (Uncaught e, w1)
    | (Blocked, w1) => (Blocked, w1)
    | (Uncaught e, w1) => (Uncaught e, w1)
    end.
Proof. intros Hs Hj. cbn [settled]. rewrite Hs. cbn. by rewrite Hj. Qed.

Lemma settled_pending_nil id s w :
  heap w !! id = Some s -> joined s = Pending ->
  settled id [] w = (Blocked, set_wire [] w).
Proof. intros Hs Hj. cbn [settled]. rewrite Hs. cbn. by rewrite Hj. Qed.

Lemma opened_session roomUrl cred w :
  heap (opened roomUrl cred w) !! length (heap w) = Some (new_session roomUrl) /\
  sockets (client (opened roomUrl cred w)) !! roomUrl = Some (length (heap w)) /\
  wire (opened roomUrl cred w) = wire w.
Proof.
  unfold opened. cbn. rewrite lookup_app_r by done.
  rewrite Nat.sub_diag, lookup_insert_eq. done.
Qed.

(** X8 (a failed join keeps the room): when the socket of a new session
    reports an error before it opens, the join rejects with that error, but
    the room stays in the registry with its session; so the next join of
    the room resolves to true at once, with no new socket, and an action
    sent to the session is queued, not sent. *)
Theorem failed_join_keeps_the_room
    (roomUrl : string) (cred : Credentials) (err : JsError) (dt : N)
    (rest : list (N * nat * SocketEvent)) (w : World) :
  sockets (client w) !! roomUrl = None ->
  now w < authExpireTime (client w) -> auth (client w) = Some cred ->
  wire w = (dt, length (heap w), sock_error err) :: rest ->
  exists w1 w2 s,
    joinRaceRoom roomUrl w = (Ret (of_session (length (heap w))), w1) /\
    await (of_session (length (heap w))) w1 = (Throw err, w2) /\
    sockets (client w2) !! roomUrl = Some (length (heap w)) /\
    heap w2 !! length (heap w) = Some s /\
    ready s = false /\ joined s = Rejected err /\
    joinRaceRoom roomUrl w2 = (Ret resolved_true, w2) /\
    await resolved_true w2 = (Ret true, w2) /\
    connections (trace w2) =
      connections (trace w) ++ [(length (heap w), "wss://racetime.gg" +:+ roomUrl)] /\
    forall message,
      sendMessage (length (heap w)) message w2 =
        (Ret tt, set_heap (<[length (heap w) := enqueue message s]> (heap w2)) w2).
Proof.
  intros Hnone Hv Ha Hw.
  pose proof (joinRaceRoom_new _ _ _ _ Hnone (refresh_if_expired_valid _ Hv) Ha) as Hj.
  destruct (opened_session roomUrl cred w) as (Hs & Hr & Hwire).
  set (n := length (heap w)) in *. set (w1 := opened roomUrl cred w) in *.
  set (wa := advance dt (set_wire rest w1)).
  assert (Hsa : heap wa !! n = Some (new_session roomUrl)) by done.
  set (s := settle (Rejected err) (new_session roomUrl)).
  set (wb := set_heap (<[n := s]> (heap wa))
               (record [Console c_log (log_socket_error err roomUrl);
                        SessionEmit n (ev_socket_error err)] wa)).
  assert (Hd : deliver n (sock_error err) wa = (Ret tt, wb)).
  { unfold deliver. rewrite Hsa. cbn [listener].
    by rewrite (on_error_settles _ _ _ _ Hsa). }
  assert (Hsb : heap wb !! n = Some s).
  { unfold wb. cbn. apply list_lookup_insert_eq. by eapply lookup_lt_Some. }
  exists w1, (set_wire rest wb), s.
  split; [done |]. split.
  { unfold await, get, bind. rewrite Hwire, Hw.
    rewrite (settled_pending _ _ _ _ _ _ _ Hs eq_refl). fold wa. rewrite Hd.
    by apply (settled_rejected _ s). }
  split; [done |]. split; [done |]. split; [done |]. split; [done |].
  split; [by apply (joinRaceRoom_existing _ n) |]. split; [done |].
  split.
  { cbn. rewrite !connections_app. cbn. by rewrite app_nil_r. }
  intros message. by apply sendMessage_not_ready.
Qed.

(** X9 (a close before the open): when the socket of a new session closes
    before it has opened and nothing else is reported, a normal close
    (code up to 1000) settles nothing: the join stays pending and its
    caller waits for ever; an abnormal close ends in the uncaught
    TypeError of the missing [reconnect].  In both cases the room stays
    registered with a session that is not ready. *)
Theorem close_before_open_settles_nothing
    (roomUrl : string) (cred : Credentials) (code : Z) (reason : string)
    (dt : N) (w : World) :
  sockets (client w) !! roomUrl = None ->
  now w < authExpireTime (client w) -> auth (client w) = Some cred ->
  wire w = [(dt, length (heap w), sock_close code reason)] ->
  exists w2,
    (joining <- joinRaceRoom roomUrl ;; await joining) w =
      (if 1000 <? code
       then Uncaught (TypeError "socket.reconnect is not a function")
       else Blocked, w2) /\
    sockets (client w2) !! roomUrl = Some (length (heap w)) /\
    heap w2 !! length (heap w) = Some (new_session roomUrl).
Proof.
  intros Hnone Hv Ha Hw.
  pose proof (joinRaceRoom_new _ _ _ _ Hnone (refresh_if_expired_valid _ Hv) Ha) as Hj.
  destruct (opened_session roomUrl cred w) as (Hs & Hr & Hwire).
  set (n := length (heap w)) in *. set (w1 := opened roomUrl cred w) in *.
  set (wa := advance dt (set_wire [] w1)).
  assert (Hsa : heap wa !! n = Some (new_session roomUrl)) by done.
  rewrite (bind_Ret _ _ _ _ _ Hj). unfold await, get, bind. rewrite Hwire, Hw.
  rewrite (settled_pending _ _ _ _ _ _ _ Hs eq_refl). fold wa.
  rewrite (deliver_close _ _ _ _ _ Hsa).
  destruct (1000 <? code).
  - by eexists.
  - rewrite (settled_pending_nil _ (new_session roomUrl)) by done. by eexists.
Qed.

(** ** Commands on a room that is joined *)




(** X11 ([sendMessage] on a joined room): when the room of the race is in
    the registry, [sendMessage] joins nothing and hands one action to the
    session of the room: the message with [pinned] and the [guid], [pinned]
    being false when [pin] is left out.  A ready session sends the frame at
    once; a session that is not ready queues the action behind the others. *)
Theorem sendMessage_on_joined_room
    (guid raceUrl message : string) (pin : option bool) (d : RaceDetails)
    (id : nat) (s : WebSocketClient) (w w1 : World) :
  fetchRaceData raceUrl w = (Ret (Some d), w1) ->
  sockets (client w1) !! websocket_bot_url d = Some id ->
  heap w1 !! id = Some s ->
  RacetimeClient_sendMessage guid raceUrl message pin w =
    sendMessage id (message_action message (default false pin) guid) w1 /\
  RacetimeClient_sendMessage guid raceUrl message None w =
    RacetimeClient_sendMessage guid raceUrl message (Some false) w /\
  (ready s = true ->
     RacetimeClient_sendMessage guid raceUrl message pin w =
       (Ret tt,
        record
          [Console c_log
             (log_sending (JSON_stringify (message_action message (default false pin) guid)));
           SocketSend id
             (JSON_stringify (message_action message (default false pin) guid))] w1)) /\
  (ready s = false ->
     RacetimeClient_sendMessage guid raceUrl message pin w =
       (Ret tt,
        set_heap
          (<[id := enqueue (message_action message (default false pin) guid) s]>
             (heap w1)) w1)).
Proof.
  intros Hf Hr Hs.
  assert (Hrun : forall pin,
            RacetimeClient_sendMessage guid raceUrl message pin w =
              sendMessage id (message_action message (default false pin) guid) w1).
  { intros p. unfold RacetimeClient_sendMessage. cbn zeta.
    rewrite (bind_Ret _ _ _ _ _ Hf).
    rewrite (bind_Ret _ _ _ _ _ (joinRaceRoom_existing _ _ _ Hr)).
    unfold await, ret, this_client, bind. by rewrite Hr. }
  split; [apply Hrun |]. split; [by rewrite !Hrun |]. split; intros Hready.
  - rewrite Hrun. by apply (sendMessage_ready _ s).
  - rewrite Hrun. by apply (sendMessage_not_ready _ s).
Qed.

(** ** Creating a race and listing the races *)

Lemma authenticatedFetch_answered url init cred dt r rest w :
  now w < authExpireTime (client w) -> auth (client w) = Some cred ->
  net w = (dt, Responds r) :: rest ->
  authenticatedFetch url init w =
    (Ret r, answered (Fetch url (with_authorization cred init)) dt rest w).
Proof.
  intros Hv Ha Hn.
  rewrite (authenticatedFetch_checked _ _ _ _ _ (refresh_if_expired_valid _ Hv) Ha).
  by apply fetch_responds.
Qed.

(** X12 ([createRace] needs a 201): with a valid credential [createRace]
    makes one request, a POST to the startrace endpoint of the category
    with the form as its body, the content type of a form and the bearer
    token; when the answer has any status but 201 (200 as well) it throws
    an [Error] that carries the text of the answer, and reads no snapshot
    and joins no room. *)
Theorem createRace_needs_201
    (raceData : list (string * string)) (connectToRoom : bool)
    (cred : Credentials) (dt : N) (r : Response)
    (rest : list (N * FetchResult)) (w : World) :
  now w < authExpireTime (client w) -> auth (client w) = Some cred ->
  net w = (dt, Responds r) :: rest -> resp_status r <> 201 ->
  createRace raceData connectToRoom w =
    (Throw (Error ("Unable to create race: " +:+ resp_body r)),
     answered
       (Fetch ("https://racetime.gg/o/" +:+ category (client w) +:+ "/startrace")
          {| method := Some "POST";
             headers := [("Content-Type", "application/x-www-form-urlencoded");
                         ("Authorization", "Bearer " +:+ access_token cred)];
             body := Some raceData |}) dt rest w).
Proof.
  intros Hv Ha Hn Hs. unfold createRace, this_client, bind at 1.
  rewrite (bind_Ret _ _ _ _ _
             (authenticatedFetch_answered _ _ _ _ _ _ _ Hv Ha Hn)).
  apply Z.eqb_neq in Hs. by rewrite Hs.
Qed.

(** X13 (the methods that only read stay off the sockets): a get of a
    race, the listing of the races, and [createRace] without
    [connectToRoom] make no session, register no room, open no socket and
    send nothing, whatever the answers of the network are. *)
Theorem reading_methods_stay_off_the_sockets
    (raceData : list (string * string)) (raceUrl : string) (w : World) :
  let stays_off (w' : World) :=
    heap w' = heap w /\ sockets (client w') = sockets (client w) /\
    connections (trace w') = connections (trace w) /\
    forall id, sent id (trace w') = sent id (trace w) in
  stays_off (fetchRaceData raceUrl w).2 /\
  stays_off (fetchRaces w).2 /\
  stays_off (createRace raceData false w).2.
Proof.
  cbn zeta. split; [| split]; apply silent_observed.
  - apply keeps_silent_fetchRaceData.
  - apply keeps_silent_fetchRaces.
  - apply keeps_silent_createRace.
Qed.

Lemma joinRaceRoom_registers roomUrl w joining w' :
  joinRaceRoom roomUrl w = (Ret joining, w') ->
  is_Some (sockets (client w') !! roomUrl).
Proof.
  unfold joinRaceRoom, this_client, bind at 1.
  destruct (sockets (client w) !! roomUrl) as [id |] eqn:Hs.
  - intros [= <- <-]. by rewrite Hs.
  - unfold bind at 1.
    destruct (refresh_if_expired w) as [[[] | e | | e] w1]; try done.
    unfold new_WebSocketClient, get, bind at 1 2.
    destruct (auth (client w1)); [| done]. cbn.
    intros [= <- <-]. cbn. by rewrite lookup_insert_eq.
Qed.

Lemma createRace_inversion raceData o w w' :
  createRace raceData true w = (Ret o, w') ->
  exists r w1 d w2 joining w3,
    authenticatedFetch (startrace_endpoint (client w))
      (Some (startrace_request raceData)) w = (Ret r, w1) /\
    resp_status r = 201 /\
    fetchRaceData (Location r) w1 = (Ret (Some d), w2) /\
    joinRaceRoom (websocket_bot_url d) w2 = (Ret joining, w3) /\
    await joining w3 = (Ret true, w') /\
    o = Some d.
Proof.
  unfold createRace, this_client, bind at 1. unfold bind at 1.
  destruct (authenticatedFetch (startrace_endpoint (client w))
              (Some (startrace_request raceData)) w)
    as [[r | e | | e] w1] eqn:H1; try done.
  destruct (Z.eqb_spec (resp_status r) 201) as [Hs |]; [| done].
  unfold bind at 1.
  destruct (fetchRaceData (Location r) w1) as [[[d |] | e | | e] w2] eqn:H2;
    try done.
  unfold bind at 1 2.
  destruct (joinRaceRoom (websocket_bot_url d) w2) as [[joining | e | | e] w3] eqn:H3;
    try done.
  unfold bind at 1.
  destruct (await joining w3) as [[b | e | | e] w4] eqn:H4; try done.
  cbn. intros [= <- <-]. apply await_true in H4 as Hb. subst b.
  by exists r, w1, d, w2, joining, w3.
Qed.

(** X14 ([createRace] with [connectToRoom]): a call that returns has
    returned the snapshot of the new race, never [null]; the snapshot is in
    the cache, and the room at its [websocket_bot_url] is in the registry,
    mapped to a session that was made for that room. *)
Theorem createRace_with_room_registers_it
    (raceData : list (string * string)) (o : option RaceDetails) (w w' : World) :
  coherent w ->
  createRace raceData true w = (Ret o, w') ->
  exists d raceUrl id s,
    o = Some d /\
    raceDetailsCache (client w') !! raceUrl = Some d /\
    sockets (client w') !! websocket_bot_url d = Some id /\
    heap w' !! id = Some s /\ raceSocketUrl s = websocket_bot_url d.
Proof.
  intros Hc Hrun.
  pose proof (keeps_grows_createRace raceData true w) as (_ & _ & Hk & _).
  rewrite Hrun in Hk. specialize (Hk Hc). cbn [snd] in Hk.
  destruct (createRace_inversion _ _ _ _ Hrun)
    as (r & w1 & d & w2 & joining & w3 & _ & _ & H2 & H3 & H4 & ->).
  destruct (joinRaceRoom_registers _ _ _ _ H3) as [id Hid].
  pose proof (await_client joining w3) as Hcl. rewrite H4 in Hcl. cbn [snd] in Hcl.
  rewrite <- Hcl in Hid. destruct (Hk _ _ Hid) as (s & Hs & Hurl).
  exists d, (Location r), id, s. repeat split; try done.
  rewrite Hcl. pose proof (joinRaceRoom_cache (websocket_bot_url d) w2) as Hca.
  rewrite H3 in Hca. cbn [snd] in Hca. rewrite Hca.
  by apply fetchRaceData_returns_cached with w1.
Qed.

(** X15 (a race created whose snapshot is not there): when the race is
    created (201, with its [Location]) but the get of its snapshot returns
    [null], [createRace] without [connectToRoom] returns [null], and with
    [connectToRoom] it throws the TypeError of reading [websocket_bot_url]
    of [null]; in both cases nothing is joined. *)
Theorem createRace_without_snapshot
    (raceData : list (string * string)) (r : Response) (raceUrl : string)
    (w w1 w2 : World) :
  authenticatedFetch (startrace_endpoint (client w))
    (Some (startrace_request raceData)) w = (Ret r, w1) ->
  resp_status r = 201 ->
  headers_get "Location" (resp_headers r) = Some raceUrl ->
  fetchRaceData raceUrl w1 = (Ret None, w2) ->
  createRace raceData false w = (Ret None, w2) /\
  createRace raceData true w =
    (Throw (TypeError "Cannot read properties of null (reading 'websocket_bot_url')"),
     w2) /\
  heap w2 = heap w /\ sockets (client w2) = sockets (client w) /\
  connections (trace w2) = connections (trace w).
Proof.
  intros H1 Hs Hl H2.
  assert (Hloc : Location r = raceUrl) by (unfold Location; by rewrite Hl).
  assert (Hrun : forall c,
            createRace raceData c w =
              (if c then Throw (TypeError "Cannot read properties of null (reading 'websocket_bot_url')")
               else Ret None, w2)).
  { intros c. unfold createRace, this_client, bind at 1.
    rewrite (bind_Ret _ _ _ _ _ H1), Hs. cbn. rewrite Hloc.
    rewrite (bind_Ret _ _ _ _ _ H2). by destruct c. }
  split; [apply Hrun |]. split; [apply Hrun |].
  pose proof (keeps_silent_createRace raceData w) as Hq.
  rewrite Hrun in Hq. cbn [snd] in Hq.
  destruct (silent_observed _ _ Hq) as (Hh & Hk & Hc & _). done.
Qed.


(** ** A message to a race *)

Lemma RacetimeClient_sendMessage_inversion guid raceUrl message pin w w' :
  RacetimeClient_sendMessage guid raceUrl message pin w = (Ret tt, w') ->
  exists d w1 joining w2 w3 id,
    fetchRaceData raceUrl w = (Ret (Some d), w1) /\
    joinRaceRoom (websocket_bot_url d) w1 = (Ret joining, w2) /\
    await joining w2 = (Ret true, w3) /\
    sockets (client w3) !! websocket_bot_url d = Some id /\
    sendMessage id (message_action message (default false pin) guid) w3 = (Ret tt, w').
Proof.
  unfold RacetimeClient_sendMessage. cbn zeta. unfold bind at 1.
  destruct (fetchRaceData raceUrl w) as [[[d |] | e | | e] w1] eqn:H1; try done.
  unfold bind at 1.
  destruct (joinRaceRoom (websocket_bot_url d) w1) as [[joining | e | | e] w2] eqn:H2;
    try done.
  unfold bind at 1.
  destruct (await joining w2) as [[b | e | | e] w3] eqn:H3; try done.
  apply await_true in H3 as Hb. subst b.
  unfold this_client, bind.
  destruct (sockets (client w3) !! websocket_bot_url d) as [id |] eqn:H4; [| done].
  intros H5. by exists d, w1, joining, w2, w3, id.
Qed.

(** X17 (a message is handed over or queued): when [sendMessage] returns,
    the snapshot of the race is in the cache, the room of the race is in
    the registry, and the action with the message is the last frame that
    was sent on the session of the room, when that session is ready, and
    the last action of its queue when it is not. *)
Theorem sendMessage_hands_over_or_queues
    (guid raceUrl message : string) (pin : option bool) (w w' : World) :
  RacetimeClient_sendMessage guid raceUrl message pin w = (Ret tt, w') ->
  exists d id s',
    raceDetailsCache (client w') !! raceUrl = Some d /\
    sockets (client w') !! websocket_bot_url d = Some id /\
    heap w' !! id = Some s' /\
    ((ready s' = true /\
      exists before,
        sent id (trace w') =
          before ++ [JSON_stringify (message_action message (default false pin) guid)]) \/
     (ready s' = false /\
      exists before,
        messageQueue s' =
          before ++ [message_action message (default false pin) guid])).
Proof.
  intros Hrun.
  destruct (RacetimeClient_sendMessage_inversion _ _ _ _ _ _ Hrun)
    as (d & w1 & joining & w2 & w3 & id & H1 & H2 & H3 & H4 & H5).
  set (act := message_action message (default false pin) guid) in *.
  assert (Hc : client w' = client w3).
  { pose proof (sendMessage_client id act w3) as Hc. by rewrite H5 in Hc. }
  assert (Hcache : raceDetailsCache (client w') !! raceUrl = Some d).
  { rewrite Hc. pose proof (await_client joining w2) as Ha. rewrite H3 in Ha.
    cbn [snd] in Ha. rewrite Ha.
    pose proof (joinRaceRoom_cache (websocket_bot_url d) w1) as Hj.
    rewrite H2 in Hj. cbn [snd] in Hj. rewrite Hj.
    by apply fetchRaceData_returns_cached with w. }
  destruct (heap w3 !! id) as [s |] eqn:Hs.
  - destruct (ready s) eqn:Hready.
    + rewrite (sendMessage_ready _ _ act _ Hs Hready) in H5.
      injection H5 as <-. exists d, id, s.
      split; [done |]. split; [done |]. split; [done |]. left. split; [done |].
      exists (sent id (trace w3)). unfold record. cbn [trace].
      rewrite sent_app. f_equal.
      unfold sent. csimpl. by rewrite decide_True.
    + rewrite (sendMessage_not_ready _ _ act _ Hs Hready) in H5.
      injection H5 as <-. exists d, id, (enqueue act s).
      split; [done |]. split; [done |].
      split; [cbn; apply list_lookup_insert_eq; by eapply lookup_lt_Some |].
      right. split; [done |]. by exists (messageQueue s).
  - unfold sendMessage, this_, bind in H5. by rewrite Hs in H5.
Qed.

(** ** The enums of the wire protocol *)

Lemma kind_of_discriminator_enum s :
  is_Some (kind_of_discriminator s) <-> exists t, s = RTMessageTypes_value t.
Proof.
  split.
  - unfold kind_of_discriminator.
    repeat (match goal with
            | |- context [String.eqb s ?c] => destruct (String.eqb_spec s c) as [-> |]
            end;
            [intros _;
             first [ by exists CHAT_HISTORY | by exists CHAT_MESSAGE
                   | by exists CHAT_DM | by exists CHAT_PIN
                   | by exists CHAT_DELETE | by exists CHAT_PURGE
                   | by exists ERROR | by exists PONG
                   | by exists RACE_DATA | by exists RACE_RENDERS ] |]).
    intros [? [=]].
  - intros [t ->]. destruct t; by eexists.
Qed.

(** X18 (the switch covers the enum): on a frame that decodes,
    [handleMessage] returns exactly when the frame is an object whose
    [type] is the value of a member of [RTMessageTypes]; every other frame
    (no object, no [type], a [type] that is no string or no value of the
    enum) ends in an exception. *)
Theorem handleMessage_returns_on_the_enum
    (id : nat) (data : RawData) (message : json) (w : World) :
  JSON_parse data = Some message ->
  (handleMessage id data w).1 = Ret tt <->
  exists members t,
    message = JObj members /\
    member "type" members = Some (JStr (RTMessageTypes_value t)).
Proof.
  intros Hp. rewrite (handleMessage_handled _ _ _ _ Hp). cbn [fst].
  unfold handled. split.
  - destruct (frame_kind message) as [k |] eqn:Hk.
    + intros _. unfold frame_kind in Hk.
      destruct message as [| | | | | members]; try done.
      destruct (member "type" members) as [[| | | str | |] |] eqn:Hm; try done.
      destruct (proj1 (kind_of_discriminator_enum str)) as [t ->]; [by eexists |].
      by exists members, t.
    + by destruct message.
  - intros (members & t & -> & Hm). unfold frame_kind. rewrite Hm.
    destruct (proj2 (kind_of_discriminator_enum (RTMessageTypes_value t)))
      as [k ->]; [by exists t | done].
Qed.

(** X19 (the values of the enums): the actions of [RTPacketTypes] and the
    statuses of [RaceStatusText] have pairwise different values; the
    message types of [RTMessageTypes] have pairwise different values but
    for [CHAT_PIN] and [CHAT_UNPIN]. *)
Theorem values_of_the_enums :
  (forall a b, RTPacketTypes_value a = RTPacketTypes_value b -> a = b) /\
  (forall a b, RaceStatusText_value a = RaceStatusText_value b -> a = b) /\
  (forall a b,
     RTMessageTypes_value a = RTMessageTypes_value b <->
     a = b \/ (a = CHAT_PIN /\ b = CHAT_UNPIN) \/ (a = CHAT_UNPIN /\ b = CHAT_PIN)).
Proof.
  split; [| split].
  - intros [] []; cbn; intros H; try reflexivity; discriminate H.
  - intros [] []; cbn; intros H; try reflexivity; discriminate H.
  - intros a b. split.
    + destruct a, b; cbn; intros H; try discriminate H; auto.
    + intros [-> | [[-> ->] | [-> ->]]]; reflexivity.
Qed.

(** ** Cancelling a race *)










End MoreProperties.

(** * The further properties on the sample worlds *)

Lemma registry_stays_coherent_witness :
  sockets (client w_joined) !! room = Some 0%nat /\
  sockets (client (register_session room w_joined).2) !! room =
    Some 1%nat /\
  coherent (register_session room w_joined).2 /\
  dom (sockets (client w_authorized)) ⊆
    dom (sockets (client (register_session room w_joined).2)).
Proof.
  split; [reflexivity |]. split; [reflexivity |].
  apply (registry_stays_coherent (host := sample_host) (listing := sample_listing)
           w_authorized).
  - intros roomUrl id H.
    destruct (lookup_empty_Some (M := gmap string) (A := nat) roomUrl id H).
  - eapply rtc_l;
      [apply overlapping_life, life_step, (step_joinRaceRoom room) |].
    apply rtc_once, (overlapping_session room).
Defined.

Lemma ready_session_has_empty_queue_witness :
  Forall flushed (heap (deliver (host := sample_host) 0 sock_open w_queued).2).
Proof.
  apply (ready_session_has_empty_queue (host := sample_host) (listing := sample_listing)
           w_authorized).
  - apply Forall_nil_2.
  - eapply rtc_l; [apply life_step, (step_joinRaceRoom room) |].
    eapply rtc_l; [apply life_step, (step_sendMessage 0%nat cancel_command) |].
    apply rtc_once, life_step, (step_deliver 0%nat sock_open).
Defined.

Lemma sessions_never_regress_witness :
  exists s',
    heap (deliver (host := sample_host) 0 (sock_close 1006 "gone")
            (deliver (host := sample_host) 0 sock_open w_queued).2).2 !! 0%nat = Some s' /\
    raceSocketUrl s' = room /\ ready s' = true /\ joined s' = Fulfilled.
Proof.
  destruct (sessions_never_regress (host := sample_host) (listing := sample_listing)
              (deliver (host := sample_host) 0 sock_open w_queued).2
              (deliver (host := sample_host) 0 (sock_close 1006 "gone")
                 (deliver (host := sample_host) 0 sock_open w_queued).2).2
              0%nat
              {| raceSocketUrl := room; ready := true; messageQueue := [];
                 joined := Fulfilled |})
    as (s' & Hs & Hurl & Hready & Hjoined & _).
  - apply rtc_once, life_step, (step_deliver 0%nat (sock_close 1006 "gone")).
  - reflexivity.
  - exists s'. split; [exact Hs |]. split; [exact Hurl |].
    split; [by apply Hready | by apply Hjoined].
Defined.

Lemma inbound_frame_witness :
  exists new,
    (deliver (host := sample_host) 0 (sock_message "a chat.message frame") w_joined).2 =
      record (SessionEmit 0 (ev_raw_message "a chat.message frame") :: new) w_joined /\
    forallb in_process new = true /\
    (deliver (host := sample_host) 0 (sock_message "a chat.message frame") w_joined).1 =
      Ret tt.
Proof.
  destruct (inbound_frame_changes_no_state (host := sample_host) 0%nat
              (new_session room) "a chat.message frame" w_joined eq_refl)
    as (new & Hw & Hq & _ & Hk).
  exists new. split; [exact Hw |]. split; [exact Hq |].
  exact (Hk (sample_frame "chat.message") eq_refl).
Defined.

Lemma absent_snapshot_witness :
  cancelRace (host := sample_host) race_url w_not_found =
    (Throw (TypeError "Cannot read properties of null (reading 'websocket_bot_url')"),
     answered (snapshot_request race_url sample_credentials) 5 [] w_not_found) /\
  RacetimeClient_sendMessage (host := sample_host) "42" race_url "hello" None w_not_found =
    (Throw (TypeError "Cannot read properties of null (reading 'websocket_bot_url')"),
     answered (snapshot_request race_url sample_credentials) 5 [] w_not_found).
Proof.
  destruct (absent_snapshot_stops_the_command (host := sample_host)
              "42" race_url "hello" None w_not_found
              (answered (snapshot_request race_url sample_credentials) 5 [] w_not_found)
              eq_refl)
    as (Hc & Hs & _).
  split; [exact Hc | exact Hs].
Defined.

Lemma failed_renewal_witness :
  createRace (host := sample_host) [("goal", "Beat the game")] true w_refused =
    (Throw (Error "Unable to refresh access_token!"),
     (refresh_if_expired (host := sample_host) w_refused).2) /\
  fetchRaces (host := sample_host) (listing := sample_listing) w_refused =
    (Throw (Error "Unable to refresh access_token!"),
     (refresh_if_expired (host := sample_host) w_refused).2).
Proof.
  destruct (failed_renewal_stops_every_method (host := sample_host)
              (listing := sample_listing)
              (Error "Unable to refresh access_token!") w_refused
              (refresh_if_expired (host := sample_host) w_refused).2 eq_refl)
    as (Hc & Hf & _).
  split; [apply Hc | exact Hf].
Defined.

Lemma failed_join_witness :
  exists w1 w2,
    joinRaceRoom (host := sample_host) room w_failing = (Ret (of_session 0), w1) /\
    await (host := sample_host) (of_session 0) w1 =
      (Throw (HostError "ECONNREFUSED"), w2) /\
    sockets (client w2) !! room = Some 0%nat /\
    joinRaceRoom (host := sample_host) room w2 = (Ret resolved_true, w2) /\
    connections (trace w2) = [(0%nat, "wss://racetime.gg" +:+ room)].
Proof.
  destruct (failed_join_keeps_the_room (host := sample_host) room sample_credentials
              (HostError "ECONNREFUSED") 3 [] w_failing)
    as (w1 & w2 & s & Hj & Ha & Hr & _ & _ & _ & Hj2 & _ & Hc & _).
  - reflexivity.
  - reflexivity.
  - reflexivity.
  - reflexivity.
  - exists w1, w2. split; [exact Hj |]. split; [exact Ha |]. split; [exact Hr |].
    split; [exact Hj2 | exact Hc].
Defined.

Lemma close_before_open_witness :
  exists w2,
    (joining <- joinRaceRoom (host := sample_host) room ;;
     await (host := sample_host) joining) w_closing = (Blocked, w2) /\
    sockets (client w2) !! room = Some 0%nat /\
    heap w2 !! 0%nat = Some (new_session room).
Proof.
  apply (close_before_open_settles_nothing (host := sample_host) room
           sample_credentials 1000 "bye" 3 w_closing); reflexivity.
Defined.


Lemma sendMessage_on_joined_room_witness :
  RacetimeClient_sendMessage (host := sample_host) "42" race_url "hello" None
    w_cached_joined =
    (Ret tt,
     set_heap (<[0%nat := enqueue (message_action "hello" false "42") (new_session room)]>
                 (heap w_cached_joined)) w_cached_joined).
Proof.
  exact (proj2 (proj2 (proj2
           (sendMessage_on_joined_room (host := sample_host) "42" race_url "hello" None
              (set_last_updated 1699999990000 sample_race) 0%nat (new_session room)
              w_cached_joined w_cached_joined eq_refl eq_refl eq_refl))) eq_refl).
Defined.

Lemma createRace_needs_201_witness :
  createRace (host := sample_host) [("goal", "Beat the game")] true w_create_refused =
    (Throw (Error "Unable to create race: goal: required"),
     answered
       (Fetch "https://racetime.gg/o/cat/startrace"
          {| method := Some "POST";
             headers := [("Content-Type", "application/x-www-form-urlencoded");
                         ("Authorization", "Bearer token")];
             body := Some [("goal", "Beat the game")] |}) 5 [] w_create_refused).
Proof.
  apply (createRace_needs_201 (host := sample_host) [("goal", "Beat the game")] true
           sample_credentials 5 (response 400 "Bad Request" "goal: required") []
           w_create_refused); [reflexivity | reflexivity | reflexivity |].
  intros H. discriminate H.
Defined.

Lemma createRace_with_room_witness :
  exists d raceUrl id s,
    Some snapshot = Some d /\
    raceDetailsCache
      (client (createRace (host := sample_host) [("goal", "Beat the game")] true
                 w_created).2) !! raceUrl = Some d /\
    sockets
      (client (createRace (host := sample_host) [("goal", "Beat the game")] true
                 w_created).2) !! websocket_bot_url d = Some id /\
    heap (createRace (host := sample_host) [("goal", "Beat the game")] true
            w_created).2 !! id = Some s /\
    raceSocketUrl s = websocket_bot_url d.
Proof.
  apply (createRace_with_room_registers_it (host := sample_host)
           [("goal", "Beat the game")] (Some snapshot) w_created).
  - intros roomUrl id H.
    destruct (lookup_empty_Some (M := gmap string) (A := nat) roomUrl id H).
  - vm_compute. reflexivity.
Defined.

Lemma createRace_without_snapshot_witness :
  (createRace (host := sample_host) [("goal", "Beat the game")] false
     w_created_unserved).1 = Ret None /\
  (createRace (host := sample_host) [("goal", "Beat the game")] true
     w_created_unserved).1 =
    Throw (TypeError "Cannot read properties of null (reading 'websocket_bot_url')").
Proof.
  destruct (createRace_without_snapshot (host := sample_host)
              [("goal", "Beat the game")] created race_url w_created_unserved
              (authenticatedFetch (host := sample_host)
                 (startrace_endpoint (client w_created_unserved))
                 (Some (startrace_request [("goal", "Beat the game")]))
                 w_created_unserved).2
              (createRace (host := sample_host) [("goal", "Beat the game")] false
                 w_created_unserved).2
              eq_refl eq_refl eq_refl eq_refl)
    as (Hf & Ht & _).
  split; [by rewrite Hf | by rewrite Ht].
Defined.


Lemma sendMessage_hands_over_witness :
  exists d id s',
    raceDetailsCache
      (client (RacetimeClient_sendMessage (host := sample_host) "42" race_url "hello"
                 (Some true) w_granted).2) !! race_url = Some d /\
    sockets
      (client (RacetimeClient_sendMessage (host := sample_host) "42" race_url "hello"
                 (Some true) w_granted).2) !! websocket_bot_url d = Some id /\
    heap (RacetimeClient_sendMessage (host := sample_host) "42" race_url "hello"
            (Some true) w_granted).2 !! id = Some s' /\
    ((ready s' = true /\
      exists before,
        sent id (trace (RacetimeClient_sendMessage (host := sample_host) "42" race_url
                          "hello" (Some true) w_granted).2) =
          before ++ [JSON_stringify (Host := sample_host)
                       (message_action "hello" true "42")]) \/
     (ready s' = false /\
      exists before,
        messageQueue s' = before ++ [message_action "hello" true "42"])).
Proof.
  apply (sendMessage_hands_over_or_queues (host := sample_host) "42" race_url "hello"
           (Some true) w_granted).
  vm_compute. reflexivity.
Defined.

Lemma handleMessage_returns_witness :
  (handleMessage (host := sample_host) 0 "a chat.message frame" w_joined).1 = Ret tt <->
  exists members t,
    sample_frame "chat.message" = JObj members /\
    member "type" members = Some (JStr (RTMessageTypes_value t)).
Proof.
  apply (handleMessage_returns_on_the_enum (host := sample_host) 0%nat
           "a chat.message frame" (sample_frame "chat.message") w_joined).
  reflexivity.
Defined.

